(** * nominatim: a Go client for the Nominatim geocoding API

    A shallow embedding of the query builders ([SearchQuery.buildQueryString],
    [ReverseQuery.buildQueryString]) and of the three client operations
    ([defaultClient.Search], [defaultClient.Reverse],
    [defaultClient.CheckStatus]), followed by the properties of the
    specification that concern them.

    Go strings are byte sequences and are modelled by [string] (a list of
    8-bit [ascii]); Go's [int] is modelled by [Z] (the code only compares and
    prints it, so no wrap-around arises); [map[string][]string] is a
    [gmap string (list string)]. *)

From Stdlib Require Import ZArith String Ascii List DecimalString Floats.
From Stdlib Require DecimalZ DecimalPos.
From stdpp Require Import gmap strings list fin_maps sorting.

Local Open Scope string_scope.
Local Open Scope Z_scope.

(** ** The parts of Go's standard library the builders call *)

(** [strconv.Itoa]: the decimal representation of an integer. *)
Definition Itoa (i : Z) : string := NilZero.string_of_int (Z.to_int i).

(** [strings.Join]. *)
Definition Join (elems : list string) (sep : string) : string :=
  String.concat sep elems.

(** [len] of a slice, as a Go [int]. *)
Definition len {A} (s : list A) : Z := Z.of_nat (List.length s).

(** Package [net/url]. *)
Module url.

(** [url.Values] is [map[string][]string]. *)
Abbreviation Values := (gmap string (list string)).

(** [v.Set(key, value)] replaces whatever [key] held by the one value. *)
Definition Set_ (key value : string) (v : Values) : Values :=
  <[key := [value]]> v.

Definition upperhex : string := "0123456789ABCDEF".

(** The byte [upperhex[i]]. *)
Definition upperhex_at (i : N) : ascii :=
  match String.get (N.to_nat i) upperhex with
  | Some c => c
  | None => "0"%char
  end.

Definition between (lo hi c : ascii) : bool :=
  (N_of_ascii lo <=? N_of_ascii c)%N && (N_of_ascii c <=? N_of_ascii hi)%N.

(** [shouldEscape(c, encodeQueryComponent)]: only the unreserved bytes of
    RFC 3986 section 2.3 pass unescaped. *)
Definition shouldEscape (c : ascii) : bool :=
  if between "a" "z" c || between "A" "Z" c || between "0" "9" c then false
  else if Ascii.eqb c "-" || Ascii.eqb c "_" || Ascii.eqb c "."
          || Ascii.eqb c "~" then false
  else true.

(** What [escape] writes for one byte in [encodeQueryComponent] mode. *)
Definition escape_byte (c : ascii) : string :=
  if Ascii.eqb c " " then "+"
  else if shouldEscape c then
    String "%" (String (upperhex_at (N.shiftr (N_of_ascii c) 4))
               (String (upperhex_at (N.land (N_of_ascii c) 15)) ""))
  else String c "".

(** [url.QueryEscape]. *)
Fixpoint QueryEscape (s : string) : string :=
  match s with
  | EmptyString => EmptyString
  | String c s' => escape_byte c ++ QueryEscape s'
  end.

(** Keys are visited in increasing byte-wise order ([slices.Sort]). *)
Definition key_le (a b : string * list string) : Prop :=
  String.leb a.1 b.1 = true.

#[global] Instance key_le_dec a b : Decision (key_le a b).
Proof. unfold key_le. apply _. Defined.

Definition sorted_entries (v : Values) : list (string * list string) :=
  merge_sort key_le (map_to_list v).

(** Each value [x] of key [k] is written as [QueryEscape k = QueryEscape x]. *)
Definition entry_components (e : string * list string) : list string :=
  List.map (fun x => QueryEscape e.1 ++ "=" ++ QueryEscape x) e.2.

Definition components (v : Values) : list string :=
  List.flat_map entry_components (sorted_entries v).

(** [v.Encode()]: the components in key order, with ["&"] written before
    every component but the first. *)
Definition Encode (v : Values) : string := String.concat "&" (components v).

End url.

(** ** Statements on a mutable value

    The builders run a sequence of statements on one [url.Values]:
    [m |> f] runs the statement [f] on [m], and [when b f] is
    [if b { f }]. *)

Definition when {A} (b : bool) (f : A → A) (m : A) : A :=
  if b then f m else m.

Notation "m |> f" := (f m) (at level 68, left associativity, only parsing).

(** ** Constants of the package *)

Definition defaultFormat : string := "jsonv2".

Definition endpointSearch : string := "search".
Definition endpointReverse : string := "reverse".
Definition endpointStatus : string := "status".

Definition StatusNoDatabase : Z := 700.
Definition StatusModuleFailed : Z := 701.
Definition StatusModuleCallFailed : Z := 702.
Definition StatusQueryFailed : Z := 703.
Definition StatusNoValue : Z := 704.

Definition keyAddressDetails : string := "addressdetails".
Definition keyExtraTags : string := "extratags".
Definition keyNameDetails : string := "namedetails".
Definition keyAcceptLanguage : string := "accept-language".
Definition keyExcludePlaces : string := "exclude_place_ids".
Definition keyFreeFormQuery : string := "q".
Definition keyStreet : string := "street".
Definition keyCity : string := "city".
Definition keyCounty : string := "county".
Definition keyState : string := "state".
Definition keyCountry : string := "country".
Definition keyPostalCode : string := "postalcode".
Definition keyLimit : string := "limit".
Definition keyLatitude : string := "lat".
Definition keyLongitude : string := "lon".
Definition keyFormat : string := "format".

(** ** Query models *)

Module SearchStructuredQuery.
Record t := mk {
  Street : string;
  City : string;
  County : string;
  State : string;
  Country : string;
  PostalCode : string
}.
End SearchStructuredQuery.

Module SearchQuery.
Import SearchStructuredQuery.

(** The first field is the embedded struct, whose fields Go promotes. *)
Record t := mk {
  Structured : SearchStructuredQuery.t;
  FreeFormQuery : string;
  AddressDetails : bool;
  ExtraTags : bool;
  NameDetails : bool;
  AcceptLanguage : list string;
  ExcludedPlaces : list string;
  Limit : Z
}.

(** [NewSearchQuery]. *)
Definition NewSearchQuery : t :=
  {| Structured := SearchStructuredQuery.mk "" "" "" "" "" "";
     FreeFormQuery := "";
     AddressDetails := true;
     ExtraTags := false;
     NameDetails := false;
     AcceptLanguage := ["en"];
     ExcludedPlaces := [];
     Limit := 10 |}.

(** The [url.Values] that [buildQueryString] has filled in when it reaches
    its [return]; every line is one statement of the source, run on the map
    the previous one left. *)
Definition queryValues (q : t) : url.Values :=
  (∅ : url.Values)
  |> url.Set_ keyFormat defaultFormat
  |> when (bool_decide (FreeFormQuery q ≠ ""))
       (url.Set_ keyFreeFormQuery (FreeFormQuery q))
  |> when (bool_decide (FreeFormQuery q = "" ∧ Street (Structured q) ≠ ""))
       (url.Set_ keyStreet (Street (Structured q)))
  |> when (bool_decide (FreeFormQuery q = "" ∧ City (Structured q) ≠ ""))
       (url.Set_ keyCity (City (Structured q)))
  |> when (bool_decide (FreeFormQuery q = "" ∧ County (Structured q) ≠ ""))
       (url.Set_ keyCounty (County (Structured q)))
  |> when (bool_decide (FreeFormQuery q = "" ∧ State (Structured q) ≠ ""))
       (url.Set_ keyState (State (Structured q)))
  |> when (bool_decide (FreeFormQuery q = "" ∧ Country (Structured q) ≠ ""))
       (url.Set_ keyCountry (Country (Structured q)))
  |> when (bool_decide (FreeFormQuery q = "" ∧ PostalCode (Structured q) ≠ ""))
       (url.Set_ keyPostalCode (PostalCode (Structured q)))
  |> url.Set_ keyAddressDetails "1"
  |> when (negb (AddressDetails q)) (url.Set_ keyAddressDetails "0")
  |> url.Set_ keyExtraTags "1"
  |> when (negb (ExtraTags q)) (url.Set_ keyExtraTags "0")
  |> url.Set_ keyNameDetails "1"
  |> when (negb (NameDetails q)) (url.Set_ keyNameDetails "0")
  |> when (0 <? len (AcceptLanguage q))
       (url.Set_ keyAcceptLanguage (Join (AcceptLanguage q) ","))
  |> when (0 <? len (ExcludedPlaces q))
       (url.Set_ keyExcludePlaces (Join (ExcludedPlaces q) ","))
  |> when (bool_decide (Limit q ≠ 0))
       (let limit := Limit q in
        let limit := if limit <? 0 then 10 else limit in
        let limit := if 50 <? limit then 50 else limit in
        url.Set_ keyLimit (Itoa limit)).

Definition buildQueryString (q : t) : string := url.Encode (queryValues q).

End SearchQuery.

Module ReverseQuery.

Record t := mk {
  Latitude : string;
  Longitude : string;
  AddressDetails : bool;
  ExtraTags : bool;
  NameDetails : bool;
  AcceptLanguage : list string
}.

(** [NewReverseQuery]. *)
Definition NewReverseQuery (latitude longitude : string) : t :=
  {| Latitude := latitude;
     Longitude := longitude;
     AddressDetails := true;
     ExtraTags := false;
     NameDetails := false;
     AcceptLanguage := ["en"] |}.

Definition queryValues (q : t) : url.Values :=
  (∅ : url.Values)
  |> url.Set_ keyFormat defaultFormat
  |> url.Set_ keyLatitude (Latitude q)
  |> url.Set_ keyLongitude (Longitude q)
  |> url.Set_ keyAddressDetails "1"
  |> when (negb (AddressDetails q)) (url.Set_ keyAddressDetails "0")
  |> url.Set_ keyExtraTags "1"
  |> when (negb (ExtraTags q)) (url.Set_ keyExtraTags "0")
  |> url.Set_ keyNameDetails "1"
  |> when (negb (NameDetails q)) (url.Set_ keyNameDetails "0")
  |> when (0 <? len (AcceptLanguage q))
       (url.Set_ keyAcceptLanguage (Join (AcceptLanguage q) ",")).

Definition buildQueryString (q : t) : string := url.Encode (queryValues q).

End ReverseQuery.

(** ** Reading a wire query string

    A query string is a sequence of [key=value] components separated by
    ["&"]; a key is emitted when a component carries it. *)

(** The pieces of [s] between the occurrences of the byte [sep]. *)
Fixpoint split_on (sep : ascii) (s : string) : list string :=
  match s with
  | EmptyString => [EmptyString]
  | String c s' =>
      if Ascii.eqb c sep then EmptyString :: split_on sep s'
      else match split_on sep s' with
           | [] => [String c EmptyString]
           | piece :: pieces => String c piece :: pieces
           end
  end.

(** A component, cut at its first ["="] into the escaped key and value. *)
Fixpoint cut_eq (s : string) : string * string :=
  match s with
  | EmptyString => (EmptyString, EmptyString)
  | String c s' =>
      if Ascii.eqb c "=" then (EmptyString, s')
      else let '(k, v) := cut_eq s' in (String c k, v)
  end.

(** The (escaped key, escaped value) pairs of a wire query string. *)
Definition wire_pairs (wire : string) : list (string * string) :=
  match wire with
  | EmptyString => []
  | _ => List.map cut_eq (split_on "&" wire)
  end.

(** The escaped values that [wire] carries under [key], in order. *)
Definition wire_values (wire key : string) : list string :=
  List.map snd
    (List.filter (fun p => String.eqb p.1 (url.QueryEscape key))
                 (wire_pairs wire)).

(** [wire] carries [key] once, with the value [value] URL-encoded. *)
Definition emits (wire key value : string) : Prop :=
  wire_values wire key = [url.QueryEscape value].

(** [wire] carries no parameter named [key]. *)
Definition omits (wire key : string) : Prop :=
  wire_values wire key = [].

(** ** Response models *)

(** A Go slice: [None] is the [nil] slice, [Some l] holds the elements [l]. *)
Abbreviation slice A := (option (list A)).

Module Error.
Record t := mk {
  Code : Z;
  Message : string
}.
Definition zero : t := mk 0 "".

(** [Error]: [fmt.Sprintf("%d: %s", e.Code, e.Message)]. *)
Definition Error (e : t) : string := Itoa (Code e) ++ ": " ++ Message e.
End Error.

Module Address.
Record t := mk {
  City : string;
  CityDistrict : string;
  Construction : string;
  Continent : string;
  Country : string;
  CountryCode : string;
  HouseNumber : string;
  Neighbourhood : string;
  Postcode : string;
  PublicBuilding : string;
  State : string;
  Suburb : string
}.
Definition zero : t := mk "" "" "" "" "" "" "" "" "" "" "" "".
End Address.

Module Result.
Record t := mk {
  PlaceId : Z;
  Licence : string;
  OsmType : string;
  OsmId : Z;
  Lat : string;
  Lon : string;
  PlaceRank : Z;
  Category : string;
  Type_ : string;
  Importance : float;
  AddressType : string;
  DisplayName : string;
  Name : string;
  Address : Address.t;
  BoundingBox : slice string
}.
(** [Result{}]. *)
Definition zero : t :=
  mk 0 "" "" 0 "" "" 0 "" "" 0%float "" "" "" Address.zero None.
End Result.

(** [time.Time]: the wall and monotonic readings and the location. *)
Module time.
Record Time := mk {
  wall : Z;
  ext : Z;
  loc : option string
}.
Definition zero : Time := mk 0 0 None.
End time.

Module Status.
Record t := mk {
  Status : Z;
  Message : string;
  DataUpdated : time.Time;
  SoftwareVersion : string;
  DatabaseVersion : string
}.
(** [Status{}]. *)
Definition zero : t := mk 0 "" time.zero "" "".
End Status.

(** The values an [error] holds in this package: what [http.Client.Get]
    failed with, what [json.Decoder.Decode] failed with, an [Error] of the
    service, or the context's own [ctx.Err()]. *)
Inductive ctx_error := Canceled | DeadlineExceeded.

Inductive error :=
| transport_error (msg : string)
| decode_error (msg : string)
| service_error (e : Error.t)
| context_error (e : ctx_error).

(** ** The collaborators the client is given *)

(** [http.Client]: [Get] answers an error or the body of the response. *)
Module http.
Record Client := mk {
  Get : string → error + string
}.
End http.

(** [encoding/json]: [Decode] reads the body into the target it is given
    and returns the target as it left it, with the error if there is one.
    There is one decoder per target type of the package. *)
Module json.
Record reverseTarget := mkTarget {
  Result_ : Result.t;
  Error_ : Error.t
}.
Record Decoder := mk {
  DecodeResults : string → slice Result.t → slice Result.t * option error;
  DecodeReverse : string → reverseTarget → reverseTarget * option error;
  DecodeStatus : string → Status.t → Status.t * option error
}.
End json.

(** [context.Context]: one that is never done ([context.TODO()]), or one
    that may become done at any moment and then reports [err]. *)
Inductive Context :=
| TODO
| WithCancel (err : ctx_error).

(** ** One call: a goroutine, two channels of capacity one, one select

    Each operation makes a value channel and an error channel, both of
    capacity one, starts a goroutine and waits in a [select] over the two
    channels and [ctx.Done()]. The goroutine only sends, so its run is the
    sequence of its sends: a send completes when the buffer of its channel
    is free and waits otherwise. The [select] takes one of the
    communications that can proceed, whichever it is; a [Take] event is
    the moment at which it does, be it that the caller reaches the
    [select] then or that it was waiting there. *)

Section Call.

Context {T : Type}.

(** The zero value the caller returns along with an error. *)
Variable zero : T.

Inductive send :=
| SendValue (v : T)
| SendErr (err : error).

Record state := mkState {
  worker : list send;              (* the sends the goroutine has yet to do *)
  valueChan : option T;            (* the buffer of the value channel *)
  errChan : option error;          (* the buffer of the error channel *)
  done : bool;                     (* ctx.Done() is closed *)
  returned : option (T * option error)  (* what the caller returned *)
}.

(** The state in which the goroutine has been started. *)
Definition start (w : list send) : state := mkState w None None false None.

Inductive event :=
| WorkerSends      (* the goroutine completes its next send *)
| CtxDone          (* the context becomes done *)
| TakeValue        (* select: case v := <-valueChan: return v, nil *)
| TakeErr          (* select: case err := <-errChan: return zero, err *)
| TakeDone.        (* select: case <-ctx.Done(): return zero, ctx.Err() *)

Definition step (ctx : Context) (e : event) (s : state) : option state :=
  match e with
  | WorkerSends =>
      match worker s with
      | SendValue v :: rest =>
          match valueChan s with
          | None => Some (mkState rest (Some v) (errChan s) (done s) (returned s))
          | Some _ => None
          end
      | SendErr err :: rest =>
          match errChan s with
          | None => Some (mkState rest (valueChan s) (Some err) (done s) (returned s))
          | Some _ => None
          end
      | [] => None
      end
  | CtxDone =>
      match ctx, done s with
      | WithCancel _, false =>
          Some (mkState (worker s) (valueChan s) (errChan s) true (returned s))
      | _, _ => None
      end
  | TakeValue =>
      match returned s, valueChan s with
      | None, Some v =>
          Some (mkState (worker s) None (errChan s) (done s) (Some (v, None)))
      | _, _ => None
      end
  | TakeErr =>
      match returned s, errChan s with
      | None, Some err =>
          Some (mkState (worker s) (valueChan s) None (done s)
                        (Some (zero, Some err)))
      | _, _ => None
      end
  | TakeDone =>
      match returned s, done s, ctx with
      | None, true, WithCancel err =>
          Some (mkState (worker s) (valueChan s) (errChan s) (done s)
                        (Some (zero, Some (context_error err))))
      | _, _, _ => None
      end
  end.

(** The same events as a relation, one rule per case that can proceed. *)
Inductive Step (ctx : Context) : event → state → state → Prop :=
| Step_send_value s v rest :
    worker s = SendValue v :: rest → valueChan s = None →
    Step ctx WorkerSends s
         (mkState rest (Some v) (errChan s) (done s) (returned s))
| Step_send_err s err rest :
    worker s = SendErr err :: rest → errChan s = None →
    Step ctx WorkerSends s
         (mkState rest (valueChan s) (Some err) (done s) (returned s))
| Step_ctx_done s err :
    ctx = WithCancel err → done s = false →
    Step ctx CtxDone s
         (mkState (worker s) (valueChan s) (errChan s) true (returned s))
| Step_take_value s v :
    returned s = None → valueChan s = Some v →
    Step ctx TakeValue s
         (mkState (worker s) None (errChan s) (done s) (Some (v, None)))
| Step_take_err s err :
    returned s = None → errChan s = Some err →
    Step ctx TakeErr s
         (mkState (worker s) (valueChan s) None (done s) (Some (zero, Some err)))
| Step_take_done s err :
    returned s = None → done s = true → ctx = WithCancel err →
    Step ctx TakeDone s
         (mkState (worker s) (valueChan s) (errChan s) (done s)
                  (Some (zero, Some (context_error err)))).

(** A schedule is the order in which the events happen. *)
Fixpoint run (ctx : Context) (sched : list event) (s : state) : option state :=
  match sched with
  | [] => Some s
  | e :: sched' =>
      match step ctx e s with
      | Some s' => run ctx sched' s'
      | None => None
      end
  end.

(** The goroutine waits in a send that no schedule lets it complete. *)
Definition stuck (ctx : Context) (s : state) : Prop :=
  worker s ≠ [] ∧
  ∀ sched s', run ctx sched s = Some s' → worker s' = worker s.

(** An error that the caller returns comes with the zero value, and is an
    error that the goroutine [w] sends or the error of the context. *)
Definition error_origin (ctx : Context) (w : list send)
    (out : T * option error) : Prop :=
  ∀ err, out.2 = Some err →
    out.1 = zero
    ∧ (In (SendErr err) w ∨ ∃ e, ctx = WithCancel e ∧ err = context_error e).

(** The events in which the caller's [select] takes a case. *)
Definition is_take (e : event) : bool :=
  match e with
  | TakeValue | TakeErr | TakeDone => true
  | WorkerSends | CtxDone => false
  end.

(** The channel a send writes to: [true] for the value channel. *)
Definition to_value_chan (op : send) : bool :=
  match op with
  | SendValue _ => true
  | SendErr _ => false
  end.

(** The buffer of the channel a send writes to is free. *)
Definition chan_free (s : state) (op : send) : Prop :=
  match op with
  | SendValue _ => valueChan s = None
  | SendErr _ => errChan s = None
  end.

End Call.

Arguments send : clear implicits.
Arguments state : clear implicits.

(** ** The client *)

Module defaultClient.

Record t := mk {
  baseURL : string;
  client : http.Client
}.

(** [NewClient]. *)
Definition NewClient (baseURL : string) (client : http.Client) : t :=
  mk baseURL client.

(** [fmt.Sprintf("%s/%s?%s", baseURL, endpoint, query)]. *)
Definition endpoint_of (base endpoint query : string) : string :=
  base ++ "/" ++ endpoint ++ "?" ++ query.

Definition Search_endpoint (d : t) (query : SearchQuery.t) : string :=
  endpoint_of (baseURL d) endpointSearch (SearchQuery.buildQueryString query).

Definition Reverse_endpoint (d : t) (query : ReverseQuery.t) : string :=
  endpoint_of (baseURL d) endpointReverse (ReverseQuery.buildQueryString query).

(** [fmt.Sprintf("%s/%s?format=json", baseURL, endpointStatus)]. *)
Definition CheckStatus_endpoint (d : t) : string :=
  baseURL d ++ "/" ++ endpointStatus ++ "?format=json".

(** The sends of the goroutine of [Search]. *)
Definition Search_worker (js : json.Decoder) (d : t) (query : SearchQuery.t)
  : list (send (slice Result.t)) :=
  let endpoint := Search_endpoint d query in
  match http.Get (client d) endpoint with
  | inl err => [SendErr err]
  | inr body =>
      let results : slice Result.t := Some [] in
      let '(results, err) := json.DecodeResults js body results in
      (match err with Some err => [SendErr err] | None => [] end)
      ++ [SendValue results]
  end.

(** [Search]: the call once its goroutine is started. *)
Definition Search (js : json.Decoder) (d : t) (query : SearchQuery.t)
  : state (slice Result.t) := start (Search_worker js d query).

(** The sends of the goroutine of [Reverse]. *)
Definition Reverse_worker (js : json.Decoder) (d : t) (query : ReverseQuery.t)
  : list (send Result.t) :=
  let endpoint := Reverse_endpoint d query in
  match http.Get (client d) endpoint with
  | inl err => [SendErr err]
  | inr body =>
      let result := json.mkTarget Result.zero Error.zero in
      let '(result, err) := json.DecodeReverse js body result in
      (match err with Some err => [SendErr err] | None => [] end)
      ++ (if 0 <? Error.Code (json.Error_ result)
          then [SendErr (service_error (json.Error_ result))] else [])
      ++ [SendValue (json.Result_ result)]
  end.

Definition Reverse (js : json.Decoder) (d : t) (query : ReverseQuery.t)
  : state Result.t := start (Reverse_worker js d query).

(** The sends of the goroutine of [CheckStatus]. *)
Definition CheckStatus_worker (js : json.Decoder) (d : t)
  : list (send Status.t) :=
  let endpoint := CheckStatus_endpoint d in
  match http.Get (client d) endpoint with
  | inl err => [SendErr err]
  | inr body =>
      let status := Status.zero in
      let '(status, err) := json.DecodeStatus js body status in
      (match err with Some err => [SendErr err] | None => [] end)
      ++ [SendValue status]
  end.

Definition CheckStatus (js : json.Decoder) (d : t) : state Status.t :=
  start (CheckStatus_worker js d).

(** The calls run with the zero value that their [select] returns along
    with an error: the [nil] slice, [Result{}] and [Status{}]. *)
Definition Search_run (ctx : Context) (sched : list event) (js : json.Decoder)
    (d : t) (query : SearchQuery.t) : option (state (slice Result.t)) :=
  run None ctx sched (Search js d query).

Definition Reverse_run (ctx : Context) (sched : list event) (js : json.Decoder)
    (d : t) (query : ReverseQuery.t) : option (state Result.t) :=
  run Result.zero ctx sched (Reverse js d query).

Definition CheckStatus_run (ctx : Context) (sched : list event)
    (js : json.Decoder) (d : t) : option (state Status.t) :=
  run Status.zero ctx sched (CheckStatus js d).

End defaultClient.

(** ** Auxiliary definitions of the proofs *)

(** The byte [b] occurs in [s]. *)
Fixpoint has_byte (b : ascii) (s : string) : bool :=
  match s with
  | EmptyString => false
  | String c s' => Ascii.eqb c b || has_byte b s'
  end.

(** The value of an upper-case hexadecimal digit. *)
Definition hex_value (c : ascii) : N :=
  let n := N_of_ascii c in
  if (n <? 58)%N then (n - 48)%N else (n - 55)%N.

(** The byte that an escaped string starts with, and the rest of it. *)
Definition unescape_head (s : string) : option (ascii * string) :=
  match s with
  | EmptyString => None
  | String c r =>
      if Ascii.eqb c "+" then Some (" "%char, r)
      else if Ascii.eqb c "%" then
        match r with
        | String h (String l r') =>
            Some (ascii_of_N (16 * hex_value h + hex_value l), r')
        | _ => None
        end
      else Some (c, r)
  end.

(** The (escaped key, escaped value) pairs that one entry of the map
    contributes. *)
Definition escaped_entry (e : string * list string) : list (string * string) :=
  List.map (fun x => (url.QueryEscape e.1, url.QueryEscape x)) e.2.

Definition key_is (k : string) (p : string * string) : bool :=
  String.eqb p.1 (url.QueryEscape k).

(** The limit that [SearchQuery.buildQueryString] sends for a limit that is
    not 0. *)
Definition limit_sent (limit : Z) : Z :=
  let limit := if limit <? 0 then 10 else limit in
  if 50 <? limit then 50 else limit.

Definition flag_value (flag : bool) : string := if flag then "1" else "0".

(** ** Stub collaborators, in the manner of the tests *)

(** A client whose transport answers every request with [r]. *)
Definition stub_client (r : error + string) : defaultClient.t :=
  defaultClient.NewClient "http://localhost:8080" (http.mk (fun _ => r)).

(** A JSON string literal: [s] between double quotes. *)
Definition json_quote (s : string) : string :=
  String "034" (s ++ String "034" "").

(** The member [error] of a reverse payload, with the given code. *)
Definition error_member (code : Z) : string :=
  json_quote "error" ++ ":{" ++ json_quote "code" ++ ":" ++ Itoa code ++ ","
  ++ json_quote "message" ++ ":" ++ json_quote "Unable to geocode" ++ "}".

(** A reverse payload that holds the embedded error and nothing else. *)
Definition error_body (code : Z) : string := "{" ++ error_member code ++ "}".

(** A reverse payload with the embedded error 704 and a [place_id] that
    is a string where [Result] has an [int]. *)
Definition error_704_bad_place_body : string :=
  "{" ++ error_member 704 ++ ","
  ++ json_quote "place_id" ++ ":" ++ json_quote "x" ++ "}".

(** What [Decode] returns for an object where an array is expected, for a
    string where an [int] is expected, and for a body it has no answer
    for. *)
Definition json_object_error : error :=
  decode_error
    "json: cannot unmarshal object into Go value of type []nominatim.Result".

Definition json_type_error : error :=
  decode_error
    "json: cannot unmarshal string into Go struct field .place_id of type int".

Definition json_syntax_error : error := decode_error "unexpected end of JSON input".

(** [Decode] as far as the proofs need it: on the bodies of [answers] it
    leaves the target and returns the error listed; any other body is
    taken as malformed, which leaves the target untouched. *)
Fixpoint decode_by {A} (answers : list (string * (A * option error)))
    (body : string) (target : A) : A * option error :=
  match answers with
  | [] => (target, Some json_syntax_error)
  | (b, answer) :: answers' =>
      if String.eqb body b then answer else decode_by answers' body target
  end.

(** - [{}] is an object: a type error for [Search], which leaves the empty
      slice, and an empty answer for the other two;
    - [[]] is the empty array of results;
    - an embedded error decodes into [Error], with code 704 or -1;
    - with the ill-typed [place_id] next to it, the embedded error is
      filled in all the same and [Decode] returns the type error. *)
Definition stub_json : json.Decoder :=
  json.mk
    (decode_by [("{}", (Some [], Some json_object_error));
                ("[]", (Some [], None))])
    (decode_by
       [("{}", (json.mkTarget Result.zero Error.zero, None));
        (error_body 704,
         (json.mkTarget Result.zero (Error.mk 704 "Unable to geocode"), None));
        (error_body (-1),
         (json.mkTarget Result.zero (Error.mk (-1) "Unable to geocode"), None));
        (error_704_bad_place_body,
         (json.mkTarget Result.zero (Error.mk 704 "Unable to geocode"),
          Some json_type_error))])
    (decode_by [("{}", (Status.zero, None))]).

Definition some_search_query : SearchQuery.t :=
  {| SearchQuery.Structured :=
       SearchStructuredQuery.mk "135 pilkington avenue" "birmingham" "" "" "" "";
     SearchQuery.FreeFormQuery := "avenida da rep, lisboa";
     SearchQuery.AddressDetails := true;
     SearchQuery.ExtraTags := false;
     SearchQuery.NameDetails := false;
     SearchQuery.AcceptLanguage := ["en"; "pt"];
     SearchQuery.ExcludedPlaces := [];
     SearchQuery.Limit := 70 |}.

Definition with_limit (limit : Z) (q : SearchQuery.t) : SearchQuery.t :=
  {| SearchQuery.Structured := SearchQuery.Structured q;
     SearchQuery.FreeFormQuery := SearchQuery.FreeFormQuery q;
     SearchQuery.AddressDetails := SearchQuery.AddressDetails q;
     SearchQuery.ExtraTags := SearchQuery.ExtraTags q;
     SearchQuery.NameDetails := SearchQuery.NameDetails q;
     SearchQuery.AcceptLanguage := SearchQuery.AcceptLanguage q;
     SearchQuery.ExcludedPlaces := SearchQuery.ExcludedPlaces q;
     SearchQuery.Limit := limit |}.

Definition some_reverse_query : ReverseQuery.t :=
  ReverseQuery.NewReverseQuery "38.6945252" "-9.3221278".

(** The queries of the tests with an unknown body and with an invalid
    latitude and longitude. *)
Definition test_search_query : SearchQuery.t :=
  {| SearchQuery.Structured :=
       SearchQuery.Structured SearchQuery.NewSearchQuery;
     SearchQuery.FreeFormQuery := "test";
     SearchQuery.AddressDetails := true;
     SearchQuery.ExtraTags := false;
     SearchQuery.NameDetails := false;
     SearchQuery.AcceptLanguage := ["en"];
     SearchQuery.ExcludedPlaces := [];
     SearchQuery.Limit := 10 |}.

Definition test_reverse_query : ReverseQuery.t :=
  ReverseQuery.NewReverseQuery "test" "testing".

(** ** Claims of the specification that do not hold as stated *)

(** Every reverse call whose body decodes and carries an embedded error
    with a non-zero code returns exactly that service error, with the
    zero-valued [Result]. *)
Definition reverse_reports_nonzero_code (js : json.Decoder)
    (d : defaultClient.t) (ctx : Context) (query : ReverseQuery.t) : Prop :=
  ∀ body r e,
    http.Get (defaultClient.client d) (defaultClient.Reverse_endpoint d query)
      = inr body →
    json.DecodeReverse js body (json.mkTarget Result.zero Error.zero)
      = (json.mkTarget r e, None) →
    Error.Code e ≠ 0 →
    ∀ sched s out,
      defaultClient.Reverse_run ctx sched js d query = Some s →
      returned s = Some out →
      out = (Result.zero, Some (service_error e)).

(** Whenever the context becomes done before the goroutine's first send,
    what the caller returns is the context's own error. *)
Definition cancellation_always_wins {T} (call : list event → option (state T))
    (zero : T) (err : ctx_error) : Prop :=
  ∀ pre post s out,
    ¬ In WorkerSends pre →
    call (pre ++ CtxDone :: post)%list = Some s →
    returned s = Some out →
    out = (zero, Some (context_error err)).

(** ** Further definitions: closed forms and outcomes *)

(** The byte-wise order in which [Encode] visits the keys. *)
Definition string_le (a b : string) : Prop := String.leb a b = true.

#[global] Instance string_le_dec a b : Decision (string_le a b).
Proof. unfold string_le. apply _. Defined.

(** One parameter per key, in the order of the list; [None] is a key that
    is not sent. *)
Definition render_param (p : string * option string) : option string :=
  (fun x => url.QueryEscape p.1 ++ "=" ++ url.QueryEscape x) <$> p.2.

Definition render_params (ps : list (string * option string)) : string :=
  String.concat "&" (omap render_param ps).

Definition param_entry (p : string * option string)
  : option (string * list string) :=
  (fun x => (p.1, [x])) <$> p.2.

(** A list-valued modifier is sent comma-joined, and not at all when the
    list is empty. *)
Definition list_param (l : list string) : option string :=
  if 0 <? len l then Some (Join l ",") else None.

(** A structured field is sent when it is set and there is no free-form
    text. *)
Definition structured_param (q : SearchQuery.t) (field : string) : option string :=
  if bool_decide (SearchQuery.FreeFormQuery q = "" ∧ field ≠ "")
  then Some field else None.

(** The parameters of a search, in the order in which they are written. *)
Definition SearchQuery_params (q : SearchQuery.t) : list (string * option string) :=
  let s := SearchQuery.Structured q in
  [ (keyAcceptLanguage, list_param (SearchQuery.AcceptLanguage q));
    (keyAddressDetails, Some (flag_value (SearchQuery.AddressDetails q)));
    (keyCity, structured_param q (SearchStructuredQuery.City s));
    (keyCountry, structured_param q (SearchStructuredQuery.Country s));
    (keyCounty, structured_param q (SearchStructuredQuery.County s));
    (keyExcludePlaces, list_param (SearchQuery.ExcludedPlaces q));
    (keyExtraTags, Some (flag_value (SearchQuery.ExtraTags q)));
    (keyFormat, Some defaultFormat);
    (keyLimit, if SearchQuery.Limit q =? 0 then None
               else Some (Itoa (limit_sent (SearchQuery.Limit q))));
    (keyNameDetails, Some (flag_value (SearchQuery.NameDetails q)));
    (keyPostalCode, structured_param q (SearchStructuredQuery.PostalCode s));
    (keyFreeFormQuery,
     if bool_decide (SearchQuery.FreeFormQuery q ≠ "")
     then Some (SearchQuery.FreeFormQuery q) else None);
    (keyState, structured_param q (SearchStructuredQuery.State s));
    (keyStreet, structured_param q (SearchStructuredQuery.Street s)) ].

(** The parameters of a reverse query, in the order in which they are
    written. *)
Definition ReverseQuery_params (q : ReverseQuery.t) : list (string * option string) :=
  [ (keyAcceptLanguage, list_param (ReverseQuery.AcceptLanguage q));
    (keyAddressDetails, Some (flag_value (ReverseQuery.AddressDetails q)));
    (keyExtraTags, Some (flag_value (ReverseQuery.ExtraTags q)));
    (keyFormat, Some defaultFormat);
    (keyLatitude, Some (ReverseQuery.Latitude q));
    (keyLongitude, Some (ReverseQuery.Longitude q));
    (keyNameDetails, Some (flag_value (ReverseQuery.NameDetails q))) ].

Definition with_free_form (text : string) (q : SearchQuery.t) : SearchQuery.t :=
  {| SearchQuery.Structured := SearchQuery.Structured q;
     SearchQuery.FreeFormQuery := text;
     SearchQuery.AddressDetails := SearchQuery.AddressDetails q;
     SearchQuery.ExtraTags := SearchQuery.ExtraTags q;
     SearchQuery.NameDetails := SearchQuery.NameDetails q;
     SearchQuery.AcceptLanguage := SearchQuery.AcceptLanguage q;
     SearchQuery.ExcludedPlaces := SearchQuery.ExcludedPlaces q;
     SearchQuery.Limit := SearchQuery.Limit q |}.

(** What is sent for a structured field, and for a list-valued
    modifier. *)
Definition sent_if_set (field : string) : list string :=
  if bool_decide (field = "") then [] else [url.QueryEscape field].

Definition list_sent (l : list string) : list string :=
  match l with
  | [] => []
  | _ => [url.QueryEscape (Join l ",")]
  end.

(** Some schedule makes the call return [out]. *)
Definition can_return {T} (call : list event → option (state T))
    (out : T * option error) : Prop :=
  ∃ sched s, call sched = Some s ∧ returned s = Some out.

(** What [Search] can return, by what the transport and the decoder
    answer. *)
Definition Search_outcome (js : json.Decoder) (d : defaultClient.t)
    (query : SearchQuery.t) (out : slice Result.t * option error) : Prop :=
  match http.Get (defaultClient.client d) (defaultClient.Search_endpoint d query) with
  | inl err => out = (None, Some err)
  | inr body =>
      match json.DecodeResults js body (Some []) with
      | (results, None) => out = (results, None)
      | (results, Some err) => out = (None, Some err) ∨ out = (results, None)
      end
  end.

Definition CheckStatus_outcome (js : json.Decoder) (d : defaultClient.t)
    (out : Status.t * option error) : Prop :=
  match http.Get (defaultClient.client d) (defaultClient.CheckStatus_endpoint d) with
  | inl err => out = (Status.zero, Some err)
  | inr body =>
      match json.DecodeStatus js body Status.zero with
      | (status, None) => out = (status, None)
      | (status, Some err) => out = (Status.zero, Some err) ∨ out = (status, None)
      end
  end.

Definition Reverse_outcome (js : json.Decoder) (d : defaultClient.t)
    (query : ReverseQuery.t) (out : Result.t * option error) : Prop :=
  match http.Get (defaultClient.client d) (defaultClient.Reverse_endpoint d query) with
  | inl err => out = (Result.zero, Some err)
  | inr body =>
      let '(result, err) :=
        json.DecodeReverse js body (json.mkTarget Result.zero Error.zero) in
      let reported := 0 <? Error.Code (json.Error_ result) in
      let service := (Result.zero, Some (service_error (json.Error_ result))) in
      let success := (json.Result_ result, None) in
      match err, reported with
      | None, false => out = success
      | None, true => out = service ∨ out = success
      | Some err, false => out = (Result.zero, Some err) ∨ out = success
      | Some err, true => out = (Result.zero, Some err)
      end
  end.
(** The call returns the zero value and the error of its context, which
    is one that can become done. *)
Definition ctx_outcome {T} (zero : T) (ctx : Context)
    (out : T * option error) : Prop :=
  ∃ c, ctx = WithCancel c ∧ out = (zero, Some (context_error c)).

(** Every byte of [s] passes the test [ok]. *)
Fixpoint all_bytes (ok : ascii → bool) (s : string) : bool :=
  match s with
  | EmptyString => true
  | String c s' => ok c && all_bytes ok s'
  end.

(** The bytes of a query string: the unreserved ones, the ["+"] and the
    ["%XX"] of escaped bytes, and the separators ["&"] and ["="]. *)
Definition wire_byte (c : ascii) : bool :=
  negb (url.shouldEscape c)
  || Ascii.eqb c "+" || Ascii.eqb c "%" || Ascii.eqb c "&" || Ascii.eqb c "=".

(** * Properties *)

(** ** The builders on concrete queries *)

Example search_free_form_wire :
  SearchQuery.buildQueryString some_search_query
  = "accept-language=en%2Cpt&addressdetails=1&extratags=0&format=jsonv2&limit=50&namedetails=0&q=avenida+da+rep%2C+lisboa".
Proof. vm_compute. reflexivity. Qed.

Example reverse_default_wire :
  ReverseQuery.buildQueryString
    (ReverseQuery.NewReverseQuery "38.6945252" "-9.3221278")
  = "accept-language=en&addressdetails=1&extratags=0&format=jsonv2&lat=38.6945252&lon=-9.3221278&namedetails=0".
Proof. vm_compute. reflexivity. Qed.

Example wire_values_example :
  wire_values (SearchQuery.buildQueryString some_search_query) keyLimit = ["50"]
  ∧ wire_values (SearchQuery.buildQueryString some_search_query) keyStreet = [].
Proof. vm_compute. done. Qed.

(** ** Bytes of escaped strings *)

Lemma has_byte_app b s1 s2 :
  has_byte b (s1 ++ s2) = has_byte b s1 || has_byte b s2.
Proof.
  induction s1 as [|c s1 IH]; simpl; [done|].
  rewrite IH. by rewrite orb_assoc.
Qed.

Lemma escape_byte_clean c :
  has_byte "&" (url.escape_byte c) = false
  ∧ has_byte "=" (url.escape_byte c) = false.
Proof. destruct c as [[] [] [] [] [] [] [] []]; vm_compute; done. Qed.

Lemma QueryEscape_clean s :
  has_byte "&" (url.QueryEscape s) = false
  ∧ has_byte "=" (url.QueryEscape s) = false.
Proof.
  induction s as [|c s [IH1 IH2]]; simpl; [done|].
  rewrite !has_byte_app, IH1, IH2.
  destruct (escape_byte_clean c) as [-> ->]. done.
Qed.

Lemma unescape_head_escape c r :
  unescape_head (url.escape_byte c ++ r) = Some (c, r).
Proof. destruct c as [[] [] [] [] [] [] [] []]; reflexivity. Qed.

Lemma QueryEscape_inj s1 s2 :
  url.QueryEscape s1 = url.QueryEscape s2 → s1 = s2.
Proof.
  revert s2. induction s1 as [|c1 s1 IH]; intros [|c2 s2] H; simpl in H.
  - done.
  - apply (f_equal unescape_head) in H.
    rewrite unescape_head_escape in H. done.
  - apply (f_equal unescape_head) in H.
    rewrite unescape_head_escape in H. done.
  - apply (f_equal unescape_head) in H.
    rewrite !unescape_head_escape in H.
    injection H as -> H. f_equal. by apply IH.
Qed.

(** ** Splitting what [Encode] joined *)

Lemma split_on_clean sep s : has_byte sep s = false → split_on sep s = [s].
Proof.
  induction s as [|c s IH]; simpl; [done|].
  intros [Hc Hs]%orb_false_iff. rewrite Hc, (IH Hs). done.
Qed.

Lemma split_on_app sep s1 s2 :
  has_byte sep s1 = false →
  split_on sep (s1 ++ String sep s2) = s1 :: split_on sep s2.
Proof.
  induction s1 as [|c s1 IH]; simpl.
  - intros _. by rewrite Ascii.eqb_refl.
  - intros [Hc Hs]%orb_false_iff. rewrite Hc, (IH Hs). done.
Qed.

Lemma split_on_concat sep c cs :
  Forall (λ x, has_byte sep x = false) (c :: cs) →
  split_on sep (String.concat (String sep "") (c :: cs)) = c :: cs.
Proof.
  revert c. induction cs as [|c' cs IH]; intros c Hall; simpl.
  - apply split_on_clean. by inversion Hall.
  - inversion Hall as [|? ? Hc Hrest]; subst.
    change (split_on sep (c ++ String sep (String.concat (String sep "") (c' :: cs)))
            = c :: c' :: cs).
    rewrite (split_on_app _ _ _ Hc). f_equal. by apply IH.
Qed.

Lemma cut_eq_app k v : has_byte "=" k = false → cut_eq (k ++ String "=" v) = (k, v).
Proof.
  induction k as [|c k IH]; simpl; [done|].
  intros [Hc Hk]%orb_false_iff. change (c =? "=")%char with (Ascii.eqb c "=").
  rewrite Hc, (IH Hk). done.
Qed.

(** ** The parameters of an encoded [url.Values] *)

Lemma cut_eq_component k x :
  cut_eq (url.QueryEscape k ++ "=" ++ url.QueryEscape x)
  = (url.QueryEscape k, url.QueryEscape x).
Proof. apply cut_eq_app, QueryEscape_clean. Qed.

Lemma component_clean k x :
  has_byte "&" (url.QueryEscape k ++ "=" ++ url.QueryEscape x) = false.
Proof.
  change ("=" ++ url.QueryEscape x) with (String "=" (url.QueryEscape x)).
  rewrite has_byte_app. simpl.
  by rewrite (proj1 (QueryEscape_clean k)), (proj1 (QueryEscape_clean x)).
Qed.

Lemma components_clean v :
  Forall (λ c, has_byte "&" c = false) (url.components v).
Proof.
  unfold url.components. apply List.Forall_forall. intros c Hc.
  apply in_flat_map in Hc as (e & _ & Hc).
  apply in_map_iff in Hc as (x & <- & _). apply component_clean.
Qed.

Lemma map_cut_eq_components v :
  List.map cut_eq (url.components v)
  = List.flat_map escaped_entry (url.sorted_entries v).
Proof.
  unfold url.components. induction (url.sorted_entries v) as [|e l IH]; [done|].
  cbn [List.flat_map]. rewrite List.map_app, IH. f_equal.
  unfold url.entry_components, escaped_entry. rewrite List.map_map.
  apply List.map_ext. intros x. apply cut_eq_component.
Qed.

Lemma wire_pairs_Encode v :
  wire_pairs (url.Encode v) = List.flat_map escaped_entry (url.sorted_entries v).
Proof.
  rewrite <- map_cut_eq_components. unfold url.Encode.
  pose proof (components_clean v) as Hclean.
  destruct (url.components v) as [|c cs] eqn:Hcs; [done|].
  pose proof (split_on_concat "&" c cs Hclean) as Hsplit.
  change (String "&" "") with "&" in Hsplit.
  unfold wire_pairs.
  destruct (String.concat "&" (c :: cs)) as [|a wire] eqn:Hwire.
  - (* an encoding is empty only if there is no component *)
    exfalso. simpl in Hsplit. injection Hsplit as <- <-.
    assert (In "" (url.components v)) as Hin by (rewrite Hcs; by left).
    unfold url.components in Hin. apply in_flat_map in Hin as (e & _ & Hin).
    apply in_map_iff in Hin as (x & Hx & _).
    change ("=" ++ url.QueryEscape x) with (String "=" (url.QueryEscape x)) in Hx.
    apply (f_equal (has_byte "=")) in Hx. rewrite has_byte_app in Hx.
    simpl in Hx. by destruct (has_byte "=" (url.QueryEscape e.1)).
  - by rewrite Hsplit.
Qed.

Lemma filter_escaped_entry_same k vs :
  List.map snd (List.filter (key_is k) (escaped_entry (k, vs)))
  = List.map url.QueryEscape vs.
Proof.
  unfold escaped_entry, key_is. induction vs as [|x vs IH]; simpl; [done|].
  rewrite String.eqb_refl. simpl. by f_equal.
Qed.

Lemma filter_escaped_entry_other k e :
  e.1 ≠ k → List.filter (key_is k) (escaped_entry e) = [].
Proof.
  intros Hne. unfold escaped_entry, key_is.
  induction e.2 as [|x vs IH]; simpl; [done|].
  destruct (String.eqb_spec (url.QueryEscape e.1) (url.QueryEscape k)) as [Heq|_].
  - by apply QueryEscape_inj in Heq.
  - done.
Qed.

Lemma filter_entries_absent k (l : list (string * list string)) :
  k ∉ l.*1 →
  List.filter (key_is k) (List.flat_map escaped_entry l) = [].
Proof.
  induction l as [|e l IH]; simpl; [done|].
  intros Hk. apply not_elem_of_cons in Hk as [Hne Hk].
  rewrite List.filter_app, (IH Hk), filter_escaped_entry_other; done.
Qed.

Lemma filter_entries_present k vs (l : list (string * list string)) :
  NoDup l.*1 → (k, vs) ∈ l →
  List.map snd (List.filter (key_is k) (List.flat_map escaped_entry l))
  = List.map url.QueryEscape vs.
Proof.
  induction l as [|e l IH]; simpl; [by intros _ ?%elem_of_nil|].
  intros [Hfresh Hnd]%NoDup_cons [<-|Hin]%elem_of_cons;
    rewrite List.filter_app, List.map_app.
  - rewrite filter_escaped_entry_same, filter_entries_absent by done.
    by rewrite app_nil_r.
  - rewrite filter_escaped_entry_other, IH; [done..|].
    intros Heq. apply Hfresh. apply list_elem_of_fmap. by exists (k, vs).
Qed.

Lemma sorted_entries_lookup (v : url.Values) k vs :
  (k, vs) ∈ url.sorted_entries v ↔ v !! k = Some vs.
Proof.
  unfold url.sorted_entries.
  rewrite (merge_sort_Permutation url.key_le (map_to_list v)).
  apply elem_of_map_to_list.
Qed.

Lemma sorted_entries_NoDup (v : url.Values) : NoDup (url.sorted_entries v).*1.
Proof.
  unfold url.sorted_entries.
  rewrite (merge_sort_Permutation url.key_le (map_to_list v)).
  apply NoDup_fst_map_to_list.
Qed.

(** What a wire query string carries under a key is what the map holds. *)
Lemma wire_values_Encode (v : url.Values) k :
  wire_values (url.Encode v) k = List.map url.QueryEscape (default [] (v !! k)).
Proof.
  unfold wire_values. rewrite wire_pairs_Encode.
  change (λ p : string * string, (p.1 =? url.QueryEscape k)%string) with (key_is k).
  destruct (v !! k) as [vs|] eqn:Hk; simpl.
  - apply filter_entries_present; [apply sorted_entries_NoDup|].
    by apply sorted_entries_lookup.
  - rewrite filter_entries_absent; [done|].
    intros ((k' & vs) & -> & Hin)%list_elem_of_fmap.
    apply sorted_entries_lookup in Hin. simpl in Hk. congruence.
Qed.

Lemma emits_Encode (v : url.Values) k x :
  v !! k = Some [x] → emits (url.Encode v) k x.
Proof. intros H. unfold emits. by rewrite wire_values_Encode, H. Qed.

Lemma omits_Encode (v : url.Values) k :
  v !! k = None → omits (url.Encode v) k.
Proof. intros H. unfold omits. by rewrite wire_values_Encode, H. Qed.

(** ** What the builders leave in the map *)

Lemma lookup_Set_eq k x (m : url.Values) : url.Set_ k x m !! k = Some [x].
Proof. apply lookup_insert_eq. Qed.

Lemma lookup_Set_ne k k' x (m : url.Values) :
  k ≠ k' → url.Set_ k x m !! k' = m !! k'.
Proof. apply lookup_insert_ne. Qed.

Lemma lookup_when_Set_ne b k k' x (m : url.Values) :
  k ≠ k' → when b (url.Set_ k x) m !! k' = m !! k'.
Proof. intros Hne. destruct b; simpl; [by apply lookup_Set_ne|done]. Qed.

Lemma when_false {A} (f : A → A) m : when false f m = m.
Proof. done. Qed.

Lemma when_true {A} (f : A → A) m : when true f m = f m.
Proof. done. Qed.

(** Two of the package's keys differ: compare them as byte strings. *)
Ltac key_ne := let H := fresh in intros H; vm_compute in H; discriminate H.

(** Skip the statements that write other keys than the one looked up. *)
Ltac peel :=
  repeat first [ rewrite lookup_when_Set_ne by key_ne
               | rewrite lookup_Set_ne by key_ne ].

(** A flag is written as ["1"] and overwritten with ["0"] when it is off. *)
Lemma lookup_flag k (flag : bool) (m : url.Values) :
  when (negb flag) (url.Set_ k "0") (url.Set_ k "1" m) !! k
  = Some [if flag then "1" else "0"].
Proof. destruct flag; apply lookup_Set_eq. Qed.

Lemma search_lookup_free_form q :
  SearchQuery.FreeFormQuery q ≠ "" →
  SearchQuery.queryValues q !! keyFreeFormQuery
  = Some [SearchQuery.FreeFormQuery q].
Proof.
  intros Hq. unfold SearchQuery.queryValues. cbv zeta. peel.
  rewrite bool_decide_eq_true_2 by done. apply lookup_Set_eq.
Qed.

Lemma search_lookup_structured q k :
  SearchQuery.FreeFormQuery q ≠ "" →
  k ∈ [keyStreet; keyCity; keyCounty; keyState; keyCountry; keyPostalCode] →
  SearchQuery.queryValues q !! k = None.
Proof.
  intros Hq Hk. unfold SearchQuery.queryValues. cbv zeta.
  rewrite !(bool_decide_eq_false_2 (SearchQuery.FreeFormQuery q = "" ∧ _))
    by (by intros [? _]).
  rewrite !when_false.
  repeat (apply elem_of_cons in Hk as [->|Hk]; [by peel|]).
  by apply elem_of_nil in Hk.
Qed.

Lemma search_lookup_limit q :
  SearchQuery.queryValues q !! keyLimit
  = if SearchQuery.Limit q =? 0 then None
    else Some [Itoa (limit_sent (SearchQuery.Limit q))].
Proof.
  unfold SearchQuery.queryValues. cbv zeta.
  destruct (Z.eqb_spec (SearchQuery.Limit q) 0) as [H0|H0].
  - rewrite bool_decide_eq_false_2 by (by intros ?). rewrite when_false. by peel.
  - rewrite bool_decide_eq_true_2 by done. apply lookup_Set_eq.
Qed.

Lemma search_lookup_flags q :
  SearchQuery.queryValues q !! keyAddressDetails
  = Some [if SearchQuery.AddressDetails q then "1" else "0"]
  ∧ SearchQuery.queryValues q !! keyExtraTags
    = Some [if SearchQuery.ExtraTags q then "1" else "0"]
  ∧ SearchQuery.queryValues q !! keyNameDetails
    = Some [if SearchQuery.NameDetails q then "1" else "0"].
Proof.
  unfold SearchQuery.queryValues. cbv zeta.
  repeat split; peel; apply lookup_flag.
Qed.

Lemma reverse_lookup_flags q :
  ReverseQuery.queryValues q !! keyAddressDetails
  = Some [if ReverseQuery.AddressDetails q then "1" else "0"]
  ∧ ReverseQuery.queryValues q !! keyExtraTags
    = Some [if ReverseQuery.ExtraTags q then "1" else "0"]
  ∧ ReverseQuery.queryValues q !! keyNameDetails
    = Some [if ReverseQuery.NameDetails q then "1" else "0"].
Proof.
  unfold ReverseQuery.queryValues.
  repeat split; peel; apply lookup_flag.
Qed.

Lemma reverse_lookup_coordinates q :
  ReverseQuery.queryValues q !! keyLatitude = Some [ReverseQuery.Latitude q]
  ∧ ReverseQuery.queryValues q !! keyLongitude = Some [ReverseQuery.Longitude q].
Proof.
  unfold ReverseQuery.queryValues.
  split; peel; apply lookup_Set_eq.
Qed.

(** Limits within the valid range are written with digits only, which
    [QueryEscape] leaves as they are. *)
Lemma QueryEscape_Itoa_small L :
  0 < L <= 50 → url.QueryEscape (Itoa L) = Itoa L.
Proof.
  intros HL.
  assert (Hall : forallb (λ n, String.eqb (url.QueryEscape (Itoa (Z.of_nat n)))
                                          (Itoa (Z.of_nat n)))
                         (seq 0 51) = true) by (vm_compute; reflexivity).
  rewrite forallb_forall in Hall.
  specialize (Hall (Z.to_nat L)). rewrite Z2Nat.id in Hall by lia.
  apply String.eqb_eq, Hall, in_seq. lia.
Qed.

(** ** The search builder *)

(** C5: when the free-form text is non-empty, the wire query string carries
    the free-form key [q] with that text and none of the six structured
    keys, whatever the structured fields hold. *)
Theorem free_form_wins (q : SearchQuery.t) :
  SearchQuery.FreeFormQuery q ≠ "" →
  let wire := SearchQuery.buildQueryString q in
  emits wire keyFreeFormQuery (SearchQuery.FreeFormQuery q)
  ∧ omits wire keyStreet ∧ omits wire keyCity ∧ omits wire keyCounty
  ∧ omits wire keyState ∧ omits wire keyCountry ∧ omits wire keyPostalCode.
Proof.
  intros Hq wire. subst wire. unfold SearchQuery.buildQueryString.
  split; [by apply emits_Encode, search_lookup_free_form|].
  repeat split; apply omits_Encode, search_lookup_structured; try done;
    set_solver.
Qed.

(** A query that has both the free-form text and a street. *)
Lemma free_form_wins_witness :
  SearchQuery.FreeFormQuery some_search_query ≠ ""
  ∧ SearchStructuredQuery.Street (SearchQuery.Structured some_search_query) ≠ ""
  ∧ emits (SearchQuery.buildQueryString some_search_query) keyFreeFormQuery
          "avenida da rep, lisboa"
  ∧ omits (SearchQuery.buildQueryString some_search_query) keyStreet.
Proof.
  split; [done|]. split; [done|].
  pose proof (free_form_wins some_search_query) as H.
  split; apply H; done.
Defined.

(** C6: the limit is sent piecewise: 0 sends no limit key; a negative limit
    sends [limit=10]; a limit from 1 to 50 sends itself; a limit above 50
    sends [limit=50]. *)
Theorem limit_piecewise (q : SearchQuery.t) :
  let L := SearchQuery.Limit q in
  let wire := SearchQuery.buildQueryString q in
  (L = 0 → omits wire keyLimit)
  ∧ (L < 0 → wire_values wire keyLimit = ["10"])
  ∧ (0 < L <= 50 → wire_values wire keyLimit = [Itoa L])
  ∧ (50 < L → wire_values wire keyLimit = ["50"]).
Proof.
  intros L wire. subst L wire. unfold omits, SearchQuery.buildQueryString.
  rewrite wire_values_Encode, search_lookup_limit. unfold limit_sent.
  repeat split; intros HL.
  - by rewrite HL.
  - destruct (Z.eqb_spec (SearchQuery.Limit q) 0); [lia|].
    destruct (Z.ltb_spec (SearchQuery.Limit q) 0); [|lia]. done.
  - destruct (Z.eqb_spec (SearchQuery.Limit q) 0); [lia|].
    destruct (Z.ltb_spec (SearchQuery.Limit q) 0); [lia|].
    destruct (Z.ltb_spec 50 (SearchQuery.Limit q)); [lia|].
    simpl. by rewrite QueryEscape_Itoa_small.
  - destruct (Z.eqb_spec (SearchQuery.Limit q) 0); [lia|].
    destruct (Z.ltb_spec (SearchQuery.Limit q) 0); [lia|].
    destruct (Z.ltb_spec 50 (SearchQuery.Limit q)); [|lia]. done.
Qed.

(** The limits 0, -3, 7 and 51. *)
Lemma limit_piecewise_witness :
  omits (SearchQuery.buildQueryString (with_limit 0 some_search_query)) keyLimit
  ∧ wire_values (SearchQuery.buildQueryString (with_limit (-3) some_search_query))
                keyLimit = ["10"]
  ∧ wire_values (SearchQuery.buildQueryString (with_limit 7 some_search_query))
                keyLimit = ["7"]
  ∧ wire_values (SearchQuery.buildQueryString (with_limit 51 some_search_query))
                keyLimit = ["50"].
Proof.
  split; [|split; [|split]].
  - apply (limit_piecewise (with_limit 0 some_search_query)). reflexivity.
  - apply (limit_piecewise (with_limit (-3) some_search_query)). reflexivity.
  - apply (limit_piecewise (with_limit 7 some_search_query)). simpl. lia.
  - apply (limit_piecewise (with_limit 51 some_search_query)). reflexivity.
Defined.

(** C7, as stated, fails: a limit of 0 is not sent as the default 10; no
    limit key is sent at all. *)
Lemma limit_zero_not_remapped :
  SearchQuery.Limit (with_limit 0 some_search_query) <= 0
  ∧ ¬ emits (SearchQuery.buildQueryString (with_limit 0 some_search_query))
            keyLimit (Itoa 10)
  ∧ omits (SearchQuery.buildQueryString (with_limit 0 some_search_query))
          keyLimit.
Proof. vm_compute. repeat split; congruence. Qed.

(** C7, amended: a limit outside [1,50] is never rejected; a negative limit
    is sent as the default 10, a limit above 50 as the maximum 50, and the
    limit 0 sends no limit key. *)
Theorem limit_remapped (q : SearchQuery.t) :
  let wire := SearchQuery.buildQueryString q in
  (SearchQuery.Limit q < 0 → emits wire keyLimit (Itoa 10))
  ∧ (50 < SearchQuery.Limit q → emits wire keyLimit (Itoa 50))
  ∧ (SearchQuery.Limit q = 0 → omits wire keyLimit).
Proof.
  intros wire. subst wire. unfold SearchQuery.buildQueryString.
  repeat split; intros HL;
    [apply emits_Encode | apply emits_Encode | apply omits_Encode];
    rewrite search_lookup_limit; unfold limit_sent;
    destruct (Z.eqb_spec (SearchQuery.Limit q) 0); try lia; try done;
    destruct (Z.ltb_spec (SearchQuery.Limit q) 0); try lia; try done.
  destruct (Z.ltb_spec 50 (SearchQuery.Limit q)); [done|lia].
Qed.

(** The limits -1, 1000 and 0. *)
Lemma limit_remapped_witness :
  emits (SearchQuery.buildQueryString (with_limit (-1) some_search_query))
        keyLimit "10"
  ∧ emits (SearchQuery.buildQueryString (with_limit 1000 some_search_query))
          keyLimit "50"
  ∧ omits (SearchQuery.buildQueryString (with_limit 0 some_search_query))
          keyLimit.
Proof.
  split; [|split].
  - apply (limit_remapped (with_limit (-1) some_search_query)). reflexivity.
  - apply (limit_remapped (with_limit 1000 some_search_query)). reflexivity.
  - apply (limit_remapped (with_limit 0 some_search_query)). reflexivity.
Defined.

(** ** Both builders *)

(** C8: for every search query and every reverse query, each of the three
    boolean modifiers is on the wire, with the value ["1"] when set and ["0"]
    when not. *)
Theorem flags_always_sent :
  (∀ q : SearchQuery.t,
     let wire := SearchQuery.buildQueryString q in
     wire_values wire keyAddressDetails = [flag_value (SearchQuery.AddressDetails q)]
     ∧ wire_values wire keyExtraTags = [flag_value (SearchQuery.ExtraTags q)]
     ∧ wire_values wire keyNameDetails = [flag_value (SearchQuery.NameDetails q)])
  ∧ (∀ q : ReverseQuery.t,
     let wire := ReverseQuery.buildQueryString q in
     wire_values wire keyAddressDetails = [flag_value (ReverseQuery.AddressDetails q)]
     ∧ wire_values wire keyExtraTags = [flag_value (ReverseQuery.ExtraTags q)]
     ∧ wire_values wire keyNameDetails = [flag_value (ReverseQuery.NameDetails q)]).
Proof.
  split; intros q wire; subst wire.
  - unfold SearchQuery.buildQueryString. rewrite !wire_values_Encode.
    destruct (search_lookup_flags q) as (-> & -> & ->).
    by destruct (SearchQuery.AddressDetails q), (SearchQuery.ExtraTags q),
                (SearchQuery.NameDetails q).
  - unfold ReverseQuery.buildQueryString. rewrite !wire_values_Encode.
    destruct (reverse_lookup_flags q) as (-> & -> & ->).
    by destruct (ReverseQuery.AddressDetails q), (ReverseQuery.ExtraTags q),
                (ReverseQuery.NameDetails q).
Qed.

(** C10: every reverse query sends the [lat] and [lon] keys with the
    caller's strings URL-encoded; empty coordinates send empty values. *)
Theorem coordinates_always_sent :
  (∀ q : ReverseQuery.t,
     let wire := ReverseQuery.buildQueryString q in
     wire_values wire keyLatitude = [url.QueryEscape (ReverseQuery.Latitude q)]
     ∧ wire_values wire keyLongitude = [url.QueryEscape (ReverseQuery.Longitude q)])
  ∧ (∀ q : ReverseQuery.t,
       ReverseQuery.Latitude q = "" → ReverseQuery.Longitude q = "" →
       wire_values (ReverseQuery.buildQueryString q) keyLatitude = [""]
       ∧ wire_values (ReverseQuery.buildQueryString q) keyLongitude = [""])
  ∧ ReverseQuery.buildQueryString (ReverseQuery.NewReverseQuery "" "")
    = "accept-language=en&addressdetails=1&extratags=0&format=jsonv2&lat=&lon=&namedetails=0".
Proof.
  assert (Hall : ∀ q : ReverseQuery.t,
     wire_values (ReverseQuery.buildQueryString q) keyLatitude
       = [url.QueryEscape (ReverseQuery.Latitude q)]
     ∧ wire_values (ReverseQuery.buildQueryString q) keyLongitude
       = [url.QueryEscape (ReverseQuery.Longitude q)]).
  { intros q. unfold ReverseQuery.buildQueryString. rewrite !wire_values_Encode.
    by destruct (reverse_lookup_coordinates q) as (-> & ->). }
  split; [exact Hall|]. split; [|by vm_compute].
  intros q Hlat Hlon. destruct (Hall q) as [-> ->]. by rewrite Hlat, Hlon.
Qed.

(** Empty coordinates, and a latitude with a space in it. *)
Lemma coordinates_always_sent_witness :
  wire_values (ReverseQuery.buildQueryString (ReverseQuery.NewReverseQuery "" ""))
              keyLatitude = [""]
  ∧ wire_values (ReverseQuery.buildQueryString
                   (ReverseQuery.NewReverseQuery "38.69 N" ""))
                keyLatitude = ["38.69+N"].
Proof.
  split.
  - apply (proj1 (proj2 coordinates_always_sent)
                 (ReverseQuery.NewReverseQuery "" "")); reflexivity.
  - apply (proj1 coordinates_always_sent
                 (ReverseQuery.NewReverseQuery "38.69 N" "")).
Defined.

(** ** Runs of a call *)

Section CallFacts.

Context {T : Type}.
Variable zero : T.
Variable ctx : Context.

Implicit Types (s : state T) (w : list (send T)) (sched : list event).

Lemma run_app sched1 sched2 s :
  run zero ctx (sched1 ++ sched2) s
  = match run zero ctx sched1 s with
    | Some s1 => run zero ctx sched2 s1
    | None => None
    end.
Proof.
  revert s. induction sched1 as [|e sched1 IH]; intros s; simpl; [done|].
  destruct (step zero ctx e s); [apply IH|done].
Qed.

(** A property that every event preserves holds along every run. *)
Lemma run_invariant (P : state T → Prop) :
  (∀ e s s', step zero ctx e s = Some s' → P s → P s') →
  ∀ sched s s', run zero ctx sched s = Some s' → P s → P s'.
Proof.
  intros Hstep. induction sched as [|e sched IH]; intros s s' Hrun HP; simpl in Hrun.
  - by injection Hrun as <-.
  - destruct (step zero ctx e s) as [s1|] eqn:He; [|done].
    eapply IH; [done|]. by eapply Hstep.
Qed.

(** The function [step] and the relation [Step] agree. *)
Lemma step_Step e s s' : step zero ctx e s = Some s' ↔ Step zero ctx e s s'.
Proof.
  split.
  - destruct e; simpl; intros He.
    + destruct (worker s) as [|[v|err] rest] eqn:Hw; [done| |].
      * destruct (valueChan s) eqn:Hv; [done|]. injection He as <-.
        by constructor.
      * destruct (errChan s) eqn:Hc; [done|]. injection He as <-.
        by constructor.
    + destruct ctx as [|err] eqn:Hctx; [done|].
      destruct (done s) eqn:Hd; [done|]. injection He as <-.
      by econstructor.
    + destruct (returned s) eqn:Hr; [done|].
      destruct (valueChan s) eqn:Hv; [|done]. injection He as <-.
      by constructor.
    + destruct (returned s) eqn:Hr; [done|].
      destruct (errChan s) eqn:Hc; [|done]. injection He as <-.
      by constructor.
    + destruct (returned s) eqn:Hr; [done|].
      destruct (done s) eqn:Hd; [|done].
      destruct ctx as [|err] eqn:Hctx; [done|]. injection He as <-.
      rewrite <- Hd at 1. by constructor.
  - intros [s0 v rest Hw Hv|s0 err rest Hw Hc|s0 err Hctx Hd
            |s0 v Hr Hv|s0 err Hr Hc|s0 err Hr Hd Hctx]; simpl.
    + by rewrite Hw, Hv.
    + by rewrite Hw, Hc.
    + by rewrite Hctx, Hd.
    + by rewrite Hr, Hv.
    + by rewrite Hr, Hc.
    + by rewrite Hr, Hd, Hctx.
Qed.

(** Once the caller has returned, what it returned does not change. *)
Lemma returned_stable sched s s' out :
  run zero ctx sched s = Some s' → returned s = Some out → returned s' = Some out.
Proof.
  apply (run_invariant (λ s, returned s = Some out)).
  intros e s1 s2 He%step_Step Hout. destruct He; simpl; congruence.
Qed.

Lemma returned_error_origin w sched s out :
  run zero ctx sched (start w) = Some s → returned s = Some out →
  error_origin zero ctx w out.
Proof.
  intros Hrun. revert out.
  pose (P := λ s : state T,
    (∀ op, In op (worker s) → In op w)
    ∧ (∀ err, errChan s = Some err → In (SendErr err) w)
    ∧ (∀ out, returned s = Some out → error_origin zero ctx w out)).
  enough (P s) as (_ & _ & H) by exact H.
  eapply (run_invariant P); [|exact Hrun|].
  - clear. intros e s s' He%step_Step (Hw & Hc & Hr).
    destruct He as [s v rest Hs Hv|s err rest Hs Hc'|s err Hctx Hd
                    |s v Hr' Hv|s err Hr' Hc'|s err Hr' Hd Hctx];
      (split; [|split]); simpl; try done.
    + intros op Hop. apply Hw. rewrite Hs. by right.
    + intros op Hop. apply Hw. rewrite Hs. by right.
    + intros err' [= <-]. apply Hw. rewrite Hs. by left.
    + intros out [= <-] err' [=].
    + intros out [= <-] err' [= <-]. split; [done|]. left. by apply Hc.
    + intros out [= <-] err' [= <-]. split; [done|]. right. eauto.
  - split; [done|]. split; done.
Qed.

(** Before the goroutine's first send both channels are empty. *)
Lemma before_first_send w sched s :
  ¬ In WorkerSends sched → run zero ctx sched (start w) = Some s →
  valueChan s = None ∧ errChan s = None.
Proof.
  intros Hno Hrun.
  enough (∀ s0, valueChan s0 = None ∧ errChan s0 = None →
                run zero ctx sched s0 = Some s →
                valueChan s = None ∧ errChan s = None) as H
    by (apply (H (start w)); [done|exact Hrun]).
  clear Hrun. induction sched as [|e sched IH]; intros s0 H0 Hrun; simpl in Hrun.
  - by injection Hrun as <-.
  - destruct (step zero ctx e s0) as [s1|] eqn:He; [|done].
    apply (IH (λ H, Hno (or_intror H)) s1); [|done].
    destruct H0 as [Hv Hc]. apply step_Step in He.
    destruct He; simpl; try done; exfalso; apply Hno; by left.
Qed.

(** So the only case a [select] can take then is the one of the context,
    and what it returns stays returned whatever happens next. *)
Lemma taken_before_first_send w pre take post s :
  ¬ In WorkerSends pre → is_take take = true →
  run zero ctx (pre ++ take :: post) (start w) = Some s →
  ∃ err, ctx = WithCancel err
         ∧ returned s = Some (zero, Some (context_error err)).
Proof.
  intros Hno Htake Hrun. rewrite run_app in Hrun.
  destruct (run zero ctx pre (start w)) as [s1|] eqn:Hpre; [|done].
  destruct (before_first_send _ _ _ Hno Hpre) as [Hv Hc].
  simpl in Hrun. destruct (step zero ctx take s1) as [s2|] eqn:Ht; [|done].
  apply step_Step in Ht. destruct Ht; try done; try congruence.
  exists err. split; [done|]. by eapply returned_stable.
Qed.

(** A goroutine that sends at most once on each channel never waits. *)
Lemma send_never_waits w sched s :
  NoDup (List.map to_value_chan w) →
  run zero ctx sched (start w) = Some s →
  ∀ op rest, worker s = op :: rest → chan_free s op.
Proof.
  intros Hnd Hrun.
  pose (P := λ s : state T,
    NoDup (List.map to_value_chan (worker s))
    ∧ ∀ op, In op (worker s) → chan_free s op).
  enough (P s) as [_ H] by (intros op rest Hw; apply H; rewrite Hw; by left).
  eapply (run_invariant P); [|exact Hrun|].
  - clear. intros e s s' He%step_Step [Hnd Hfree].
    destruct He as [s v rest Hs Hv|s err rest Hs Hc|s err Hctx Hd
                    |s v Hr Hv|s err Hr Hc|s err Hr Hd Hctx];
      try (split; [done|]; intros op Hop;
           specialize (Hfree op Hop); by destruct op).
    + rewrite Hs in Hnd, Hfree. simpl in Hnd.
      apply NoDup_cons in Hnd as [Hfresh Hnd]. split; [done|].
      intros op Hop. pose proof (Hfree op (or_intror Hop)) as Hf.
      destruct op as [v'|err']; simpl in *; [|done].
      exfalso. apply Hfresh. apply list_elem_of_In, in_map_iff.
      by exists (SendValue v').
    + rewrite Hs in Hnd, Hfree. simpl in Hnd.
      apply NoDup_cons in Hnd as [Hfresh Hnd]. split; [done|].
      intros op Hop. pose proof (Hfree op (or_intror Hop)) as Hf.
      destruct op as [v'|err']; simpl in *; [done|].
      exfalso. apply Hfresh. apply list_elem_of_In, in_map_iff.
      by exists (SendErr err').
  - split; [done|]. intros op _. by destruct op.
Qed.

(** A free buffer is what a send needs to complete. *)
Lemma chan_free_step s op rest :
  worker s = op :: rest → chan_free s op →
  ∃ s', step zero ctx WorkerSends s = Some s' ∧ worker s' = rest.
Proof.
  intros Hw Hfree. simpl. rewrite Hw.
  destruct op; simpl in Hfree; rewrite Hfree; eauto.
Qed.

End CallFacts.

(** ** The goroutines of the three operations *)

Lemma Search_worker_channels js d query :
  NoDup (List.map to_value_chan (defaultClient.Search_worker js d query)).
Proof.
  unfold defaultClient.Search_worker.
  destruct (http.Get _ _) as [err|body]; simpl.
  - apply NoDup_singleton.
  - destruct (json.DecodeResults js body _) as [results [err|]]; simpl;
      by apply (bool_decide_unpack _).
Qed.

Lemma CheckStatus_worker_channels js d :
  NoDup (List.map to_value_chan (defaultClient.CheckStatus_worker js d)).
Proof.
  unfold defaultClient.CheckStatus_worker.
  destruct (http.Get _ _) as [err|body]; simpl.
  - apply NoDup_singleton.
  - destruct (json.DecodeStatus js body _) as [status [err|]]; simpl;
      by apply (bool_decide_unpack _).
Qed.

(** The goroutines of [Search] and [CheckStatus] never wait in a send,
    whatever the response, the schedule and the context. *)
Lemma Search_goroutine_never_waits js d query ctx sched s op rest :
  defaultClient.Search_run ctx sched js d query = Some s →
  worker s = op :: rest →
  ∃ s', step None ctx WorkerSends s = Some s' ∧ worker s' = rest.
Proof.
  intros Hrun Hw. apply (chan_free_step _ _ _ op); [done|].
  eapply send_never_waits; [apply Search_worker_channels|exact Hrun|exact Hw].
Qed.

Lemma CheckStatus_goroutine_never_waits js d ctx sched s op rest :
  defaultClient.CheckStatus_run ctx sched js d = Some s →
  worker s = op :: rest →
  ∃ s', step Status.zero ctx WorkerSends s = Some s' ∧ worker s' = rest.
Proof.
  intros Hrun Hw. apply (chan_free_step _ _ _ op); [done|].
  eapply send_never_waits; [apply CheckStatus_worker_channels|exact Hrun|exact Hw].
Qed.

(** The goroutine of [Reverse] sends once on each channel unless the body
    both fails to decode and has filled in a positive error code. *)
Lemma Reverse_worker_channels js d query :
  (∀ body target err,
     http.Get (defaultClient.client d) (defaultClient.Reverse_endpoint d query)
       = inr body →
     json.DecodeReverse js body (json.mkTarget Result.zero Error.zero)
       = (target, Some err) →
     Error.Code (json.Error_ target) <= 0) →
  NoDup (List.map to_value_chan (defaultClient.Reverse_worker js d query)).
Proof.
  intros Hcode. unfold defaultClient.Reverse_worker.
  destruct (http.Get _ _) as [err|body] eqn:Hget; simpl.
  - apply NoDup_singleton.
  - destruct (json.DecodeReverse js body _) as [target [err|]] eqn:Hdec; simpl.
    + specialize (Hcode body target err eq_refl Hdec).
      destruct (Z.ltb_spec 0 (Error.Code (json.Error_ target))); [lia|].
      by apply (bool_decide_unpack _).
    + destruct (0 <? Error.Code (json.Error_ target)); simpl;
        by apply (bool_decide_unpack _).
Qed.

Lemma Reverse_goroutine_never_waits js d query ctx sched s op rest :
  (∀ body target err,
     http.Get (defaultClient.client d) (defaultClient.Reverse_endpoint d query)
       = inr body →
     json.DecodeReverse js body (json.mkTarget Result.zero Error.zero)
       = (target, Some err) →
     Error.Code (json.Error_ target) <= 0) →
  defaultClient.Reverse_run ctx sched js d query = Some s →
  worker s = op :: rest →
  ∃ s', step Result.zero ctx WorkerSends s = Some s' ∧ worker s' = rest.
Proof.
  intros Hcode Hrun Hw. apply (chan_free_step _ _ _ op); [done|].
  eapply send_never_waits;
    [by apply Reverse_worker_channels|exact Hrun|exact Hw].
Qed.

(** After a decode error the goroutine of [Search] sends the error and
    then the results: a caller that takes right after the first send
    returns the error, one whose [select] finds both channels ready may
    return the results with a nil error. *)
Lemma Search_decode_failure_outcomes js d query body results err :
  http.Get (defaultClient.client d) (defaultClient.Search_endpoint d query)
    = inr body →
  json.DecodeResults js body (Some []) = (results, Some err) →
  (∃ s, defaultClient.Search_run TODO [WorkerSends; WorkerSends; TakeValue]
                                 js d query = Some s
        ∧ returned s = Some (results, None))
  ∧ (∃ s, defaultClient.Search_run TODO [WorkerSends; TakeErr] js d query
          = Some s
          ∧ returned s = Some (None, Some err)).
Proof.
  intros Hget Hdec.
  unfold defaultClient.Search_run, defaultClient.Search,
    defaultClient.Search_worker.
  rewrite Hget, Hdec. split; by eexists.
Qed.

(** Nothing moves in a state where the caller has returned, the context is
    done and the goroutine's next send finds its buffer full. *)
Lemma full_buffer_stuck {T} (zero : T) ctx (s : state T) err rest x out :
  worker s = SendErr err :: rest → errChan s = Some x →
  done s = true → returned s = Some out →
  stuck zero ctx s.
Proof.
  intros Hw Hc Hd Hr. split; [by rewrite Hw|].
  intros [|e sched] s'; simpl; [by intros [= <-]|].
  destruct (step zero ctx e s) as [s1|] eqn:He; [|done].
  apply step_Step in He. destruct He; congruence.
Qed.

(** C4 fails on [Reverse]: when the body fails to decode and yet has filled
    in a positive error code, the goroutine sends twice on the error
    channel; if the context wins the [select], the first error stays in
    the buffer and the second send waits for ever. *)
Theorem Reverse_goroutine_blocks :
  let js := stub_json in
  let d := stub_client (inr error_704_bad_place_body) in
  let ctx := WithCancel DeadlineExceeded in
  ∃ s,
    defaultClient.Reverse_run ctx [WorkerSends; CtxDone; TakeDone]
                              js d some_reverse_query = Some s
    ∧ returned s = Some (Result.zero, Some (context_error DeadlineExceeded))
    ∧ stuck Result.zero ctx s.
Proof.
  intros js d ctx. eexists. split; [vm_compute; reflexivity|].
  split; [reflexivity|]. by eapply full_buffer_stuck.
Qed.

(** C2 fails: after the decode error, the goroutine of [Search] goes on to
    send the results, and a [select] that finds both channels ready may
    take the results and return them with a nil error. *)
Theorem Search_decode_failure_may_succeed :
  let js := stub_json in
  let d := stub_client (inr "{}") in
  (json.DecodeResults js "{}" (Some [])).2 = Some json_object_error
  ∧ (∃ s, defaultClient.Search_run TODO [WorkerSends; WorkerSends; TakeValue]
                                   js d test_search_query = Some s
          ∧ returned s = Some (Some [], None))
  ∧ (∃ s, defaultClient.Search_run TODO [WorkerSends; TakeErr]
                                   js d test_search_query = Some s
          ∧ returned s = Some (None, Some json_object_error)).
Proof.
  intros js d. split; [reflexivity|].
  apply (Search_decode_failure_outcomes js d test_search_query "{}"); reflexivity.
Qed.

(** C1, as stated, fails: an embedded error whose code is negative is not
    reported; [Reverse] returns the result with a nil error. *)
Lemma negative_error_code_not_reported :
  ¬ reverse_reports_nonzero_code stub_json
      (stub_client (inr (error_body (-1)))) TODO test_reverse_query.
Proof.
  intros H.
  specialize (H (error_body (-1)) Result.zero (Error.mk (-1) "Unable to geocode")
                eq_refl eq_refl ltac:(done)
                [WorkerSends; TakeValue] _ _ eq_refl eq_refl).
  discriminate H.
Qed.

Lemma Reverse_worker_positive_code js d query body r e :
  http.Get (defaultClient.client d) (defaultClient.Reverse_endpoint d query)
    = inr body →
  json.DecodeReverse js body (json.mkTarget Result.zero Error.zero)
    = (json.mkTarget r e, None) →
  0 < Error.Code e →
  defaultClient.Reverse_worker js d query
  = [SendErr (service_error e); SendValue r].
Proof.
  intros Hget Hdec Hcode. unfold defaultClient.Reverse_worker.
  rewrite Hget, Hdec. simpl.
  by destruct (Z.ltb_spec 0 (Error.Code e)); [|lia].
Qed.

(** C1, amended: when the body decodes without error and its embedded
    error has a positive code, the goroutine's first send is a service
    error with exactly that code and message; a caller whose [select]
    takes a case once that send is made returns it with the zero-valued
    [Result]; and under a context that is never done, every error that
    [Reverse] returns is that service error with the zero-valued [Result]. *)
Theorem positive_error_code_reported js d query body r e :
  http.Get (defaultClient.client d) (defaultClient.Reverse_endpoint d query)
    = inr body →
  json.DecodeReverse js body (json.mkTarget Result.zero Error.zero)
    = (json.mkTarget r e, None) →
  0 < Error.Code e →
  let failure := (Result.zero, Some (service_error e)) in
  (∃ rest, defaultClient.Reverse_worker js d query
           = SendErr (service_error e) :: rest)
  ∧ (∀ ctx take post s,
       is_take take = true →
       defaultClient.Reverse_run ctx (WorkerSends :: take :: post) js d query
         = Some s →
       returned s = Some failure)
  ∧ (∀ ctx, ∃ s,
       defaultClient.Reverse_run ctx [WorkerSends; TakeErr] js d query = Some s
       ∧ returned s = Some failure)
  ∧ (∀ sched s v err,
       defaultClient.Reverse_run TODO sched js d query = Some s →
       returned s = Some (v, Some err) →
       (v, Some err) = failure).
Proof.
  intros Hget Hdec Hcode failure.
  pose proof (Reverse_worker_positive_code _ _ _ _ _ _ Hget Hdec Hcode) as Hw.
  unfold defaultClient.Reverse_run, defaultClient.Reverse. rewrite Hw.
  split; [by eexists|]. split; [|split].
  - intros ctx take post s Htake Hrun. simpl in Hrun.
    destruct take; try done; simpl in Hrun.
    by eapply returned_stable.
  - intros ctx. by eexists.
  - intros sched s v err Hrun Hret.
    destruct (returned_error_origin _ _ _ _ _ _ Hrun Hret err eq_refl)
      as [Hv [Hin|(c & Hctx & _)]]; [|done].
    simpl in Hv. subst v. destruct Hin as [[= <-]|[|[]]]; done.
Qed.

(** The payload of the service for coordinates it cannot geocode:
    code 704. *)
Lemma positive_error_code_reported_witness :
  ∃ s, defaultClient.Reverse_run TODO [WorkerSends; TakeErr; WorkerSends]
         stub_json (stub_client (inr (error_body 704)))
         test_reverse_query = Some s
       ∧ returned s
         = Some (Result.zero,
                 Some (service_error (Error.mk StatusNoValue "Unable to geocode"))).
Proof.
  eexists. split; [reflexivity|].
  apply (proj1 (proj2 (positive_error_code_reported
           stub_json (stub_client (inr (error_body 704)))
           test_reverse_query (error_body 704) Result.zero
           (Error.mk 704 "Unable to geocode") eq_refl eq_refl eq_refl))
         TODO TakeErr [WorkerSends]); reflexivity.
Defined.

(** C3, as stated, fails: the context may become done before the goroutine
    sends, and the caller still return the results, when its [select] runs
    only after the send and finds both cases ready. *)
Lemma cancellation_may_lose :
  ¬ cancellation_always_wins
      (λ sched, defaultClient.Search_run (WithCancel DeadlineExceeded) sched
                  stub_json (stub_client (inr "[]")) some_search_query)
      None DeadlineExceeded.
Proof.
  intros H.
  specialize (H [] [WorkerSends; TakeValue] _ _ (λ H, H) eq_refl eq_refl).
  discriminate H.
Qed.

(** C3, amended: for each of the three operations, when the context becomes
    done and the caller's [select] takes a case before the goroutine's
    first send, the caller returns the zero value with the context's own
    error, whatever the goroutine does afterwards. *)
Theorem cancellation_wins_before_delivery js d err :
  let ctx := WithCancel err in
  (∀ query pre take post s,
     In CtxDone pre → ¬ In WorkerSends pre → is_take take = true →
     defaultClient.Search_run ctx (pre ++ take :: post) js d query = Some s →
     returned s = Some (None, Some (context_error err)))
  ∧ (∀ query pre take post s,
     In CtxDone pre → ¬ In WorkerSends pre → is_take take = true →
     defaultClient.Reverse_run ctx (pre ++ take :: post) js d query = Some s →
     returned s = Some (Result.zero, Some (context_error err)))
  ∧ (∀ pre take post s,
     In CtxDone pre → ¬ In WorkerSends pre → is_take take = true →
     defaultClient.CheckStatus_run ctx (pre ++ take :: post) js d = Some s →
     returned s = Some (Status.zero, Some (context_error err))).
Proof.
  intros ctx. split; [|split]; intros; 
    match goal with
    | Hrun : _ = Some ?s |- _ =>
        destruct (taken_before_first_send _ _ _ _ _ _ _ ltac:(eassumption)
                    ltac:(eassumption) Hrun) as (err' & [= <-] & Hret)
    end; exact Hret.
Qed.

(** The context is done, the caller returns, and only then does the
    goroutine of [Search] send its results. *)
Lemma cancellation_wins_before_delivery_witness :
  ∃ s, defaultClient.Search_run (WithCancel DeadlineExceeded)
         ([CtxDone] ++ TakeDone :: [WorkerSends])
         stub_json (stub_client (inr "[]")) some_search_query = Some s
       ∧ worker s = []
       ∧ returned s = Some (None, Some (context_error DeadlineExceeded)).
Proof.
  eexists. split; [reflexivity|]. split; [reflexivity|].
  apply (proj1 (cancellation_wins_before_delivery stub_json
                  (stub_client (inr "[]")) DeadlineExceeded)
               some_search_query [CtxDone] TakeDone [WorkerSends]).
  - by left.
  - by intros [|[]].
  - reflexivity.
  - reflexivity.
Defined.

(** C9: whenever [Search], [Reverse] or [CheckStatus] returns a non-nil
    error, the value it returns with it is the zero value of its type: the
    nil slice, [Result{}], [Status{}]. *)
Theorem error_comes_with_zero_value js d ctx :
  (∀ query sched s v err,
     defaultClient.Search_run ctx sched js d query = Some s →
     returned s = Some (v, Some err) → v = None)
  ∧ (∀ query sched s v err,
     defaultClient.Reverse_run ctx sched js d query = Some s →
     returned s = Some (v, Some err) → v = Result.zero)
  ∧ (∀ sched s v err,
     defaultClient.CheckStatus_run ctx sched js d = Some s →
     returned s = Some (v, Some err) → v = Status.zero).
Proof.
  split; [|split]; intros;
    match goal with
    | Hrun : _ = Some ?s, Hret : returned ?s = Some (_, Some ?err) |- _ =>
        exact (proj1 (returned_error_origin _ _ _ _ _ _ Hrun Hret err eq_refl))
    end.
Qed.

(** A decode error of [Search], a cancelled [Reverse] and a transport
    error of [CheckStatus]. *)
Lemma error_comes_with_zero_value_witness :
  (∃ s v, defaultClient.Search_run TODO [WorkerSends; WorkerSends; TakeErr]
            stub_json (stub_client (inr "{}")) some_search_query
          = Some s
          ∧ returned s = Some (v, Some json_object_error)
          ∧ v = None)
  ∧ (∃ s v, defaultClient.Reverse_run (WithCancel Canceled) [CtxDone; TakeDone]
              stub_json (stub_client (inr "{}")) some_reverse_query = Some s
            ∧ returned s = Some (v, Some (context_error Canceled))
            ∧ v = Result.zero)
  ∧ (∃ s v, defaultClient.CheckStatus_run TODO [WorkerSends; TakeErr]
              stub_json (stub_client (inl (transport_error "Client.Timeout exceeded")))
            = Some s
            ∧ returned s = Some (v, Some (transport_error "Client.Timeout exceeded"))
            ∧ v = Status.zero).
Proof.
  split; [|split]; eexists _, _; (split; [reflexivity|]); (split; [reflexivity|]).
  - exact (proj1 (error_comes_with_zero_value stub_json
                    (stub_client (inr "{}")) TODO)
                 some_search_query [WorkerSends; WorkerSends; TakeErr]
                 _ _ _ eq_refl eq_refl).
  - exact (proj1 (proj2 (error_comes_with_zero_value stub_json
                    (stub_client (inr "{}")) (WithCancel Canceled)))
                 some_reverse_query [CtxDone; TakeDone] _ _ _ eq_refl eq_refl).
  - exact (proj2 (proj2 (error_comes_with_zero_value stub_json
                    (stub_client (inl (transport_error "Client.Timeout exceeded")))
                    TODO))
                 [WorkerSends; TakeErr] _ _ _ eq_refl eq_refl).
Defined.

(** * Further properties *)

(** ** The order of the keys *)

Lemma ascii_compare_trans a b c :
  Ascii.compare a b <> Gt → Ascii.compare b c <> Gt → Ascii.compare a c <> Gt.
Proof.
  unfold Ascii.compare. rewrite !N.compare_le_iff. lia.
Qed.

Lemma string_compare_trans s1 s2 s3 :
  String.compare s1 s2 ≠ Gt → String.compare s2 s3 ≠ Gt →
  String.compare s1 s3 ≠ Gt.
Proof.
  revert s2 s3. induction s1 as [|a s1 IH]; intros [|b s2] [|c s3]; simpl;
    try done.
  unfold Ascii.compare.
  destruct (N.compare_spec (N_of_ascii a) (N_of_ascii b)) as [Hab|Hab|Hab];
    destruct (N.compare_spec (N_of_ascii b) (N_of_ascii c)) as [Hbc|Hbc|Hbc];
    try done; intros H12 H23.
  - rewrite <- Hbc, Hab, N.compare_refl. by eapply IH.
  - rewrite Hab. by rewrite (proj2 (N.compare_lt_iff _ _) Hbc).
  - rewrite <- Hbc. by rewrite (proj2 (N.compare_lt_iff _ _) Hab).
  - by rewrite (proj2 (N.compare_lt_iff _ _) (N.lt_trans _ _ _ Hab Hbc)).
Qed.

Lemma leb_compare s1 s2 : String.leb s1 s2 = true ↔ String.compare s1 s2 ≠ Gt.
Proof. unfold String.leb. by destruct (String.compare s1 s2). Qed.

#[local] Instance string_le_trans : Transitive string_le.
Proof.
  intros s1 s2 s3. unfold string_le. rewrite !leb_compare.
  apply string_compare_trans.
Qed.

#[local] Instance key_le_trans : Transitive url.key_le.
Proof. intros a b c. apply string_le_trans. Qed.

#[local] Instance key_le_total : Total url.key_le.
Proof. intros a b. apply String.leb_total. Qed.

(** ** An encoded map in closed form *)

Lemma elem_of_param_entries (ps : list (string * option string)) k vs :
  (k, vs) ∈ omap param_entry ps ↔ ∃ x, vs = [x] ∧ (k, Some x) ∈ ps.
Proof.
  rewrite list_elem_of_omap. split.
  - intros ([k' [x|]] & Hin & Heq); simpl in Heq; [|done].
    injection Heq as <- <-. by exists x.
  - intros (x & -> & Hin). by exists (k, Some x).
Qed.

Lemma param_entries_sorted (ps : list (string * option string)) :
  StronglySorted string_le ps.*1 →
  StronglySorted url.key_le (omap param_entry ps).
Proof.
  induction ps as [|[k o] ps IH]; simpl; [constructor|].
  intros [Hps Hk]%StronglySorted_inv.
  destruct o as [x|]; simpl; [|by apply IH].
  constructor; [by apply IH|].
  apply Forall_forall. intros [k' vs] (x' & _ & Hin)%elem_of_param_entries.
  rewrite Forall_forall in Hk. apply Hk.
  apply list_elem_of_fmap. by exists (k', Some x').
Qed.

(** A map whose keys are among those of [ps], strictly increasing, and
    which holds under each what [ps] says, is visited by [Encode] in the
    order of [ps]. *)
Lemma sorted_entries_params (v : url.Values) (ps : list (string * option string)) :
  StronglySorted string_le ps.*1 → NoDup ps.*1 →
  (∀ k o, (k, o) ∈ ps → v !! k = (λ x, [x]) <$> o) →
  (∀ k, k ∉ ps.*1 → v !! k = None) →
  url.sorted_entries v = omap param_entry ps.
Proof.
  intros Hsorted Hnd Hin Hout.
  assert (∀ k vs, (k, vs) ∈ omap param_entry ps ↔ v !! k = Some vs) as Hiff.
  { intros k vs. rewrite elem_of_param_entries. split.
    - intros (x & -> & Hk). by rewrite (Hin _ _ Hk).
    - intros Hk. destruct (decide (k ∈ ps.*1)) as [Hks|Hks].
      + apply list_elem_of_fmap in Hks as ([k' o] & -> & Hko). simpl in *.
        rewrite (Hin _ _ Hko) in Hk. destruct o as [x|]; [|done].
        injection Hk as <-. by exists x.
      + by rewrite (Hout _ Hks) in Hk. }
  apply (Sorted_unique_strong url.key_le).
  - intros [k1 vs1] [k2 vs2] H1 H2 Hle1 Hle2.
    apply sorted_entries_lookup in H1. apply Hiff in H2.
    pose proof (String.leb_antisym _ _ Hle1 Hle2) as Hk. simpl in Hk.
    subst k2. congruence.
  - apply Sorted_merge_sort, _.
  - by apply StronglySorted_Sorted, param_entries_sorted.
  - apply NoDup_Permutation.
    + eapply NoDup_fmap_1, sorted_entries_NoDup.
    + apply (NoDup_fmap_1 fst).
      assert ((omap param_entry ps).*1 `sublist_of` ps.*1) as Hsub.
      { clear. induction ps as [|[k [x|]] ps IH]; simpl;
          [done|by constructor|by constructor]. }
      by eapply sublist_NoDup.
    + intros [k vs]. by rewrite sorted_entries_lookup, Hiff.
Qed.

Lemma Encode_params (v : url.Values) (ps : list (string * option string)) :
  StronglySorted string_le ps.*1 → NoDup ps.*1 →
  (∀ k o, (k, o) ∈ ps → v !! k = (λ x, [x]) <$> o) →
  (∀ k, k ∉ ps.*1 → v !! k = None) →
  url.Encode v = render_params ps.
Proof.
  intros Hsorted Hnd Hin Hout. unfold url.Encode, url.components, render_params.
  rewrite (sorted_entries_params v ps) by done. f_equal.
  clear. induction ps as [|[k [x|]] ps IH]; simpl; [done| |done].
  f_equal. exact IH.
Qed.

(** ** The builders in closed form *)

(** Look a key up in a builder: skip the statements on other keys, then
    read the one or two statements that write it. *)
Ltac read_key :=
  peel;
  first
    [ apply lookup_flag
    | apply lookup_Set_eq
    | match goal with
      | |- when ?b _ _ !! _ = _ =>
          destruct b; [apply lookup_Set_eq | rewrite when_false; by peel]
      end ].

Lemma search_lookup_params q k o :
  (k, o) ∈ SearchQuery_params q →
  SearchQuery.queryValues q !! k = (λ x, [x]) <$> o.
Proof.
  unfold SearchQuery_params, structured_param, list_param. cbv zeta.
  intros Hin.
  repeat (apply elem_of_cons in Hin as [[= -> ->]|Hin];
          [first [ rewrite search_lookup_limit;
                   by destruct (SearchQuery.Limit q =? 0)
                 | unfold SearchQuery.queryValues; cbv zeta; read_key ]|]).
  by apply elem_of_nil in Hin.
Qed.

Lemma search_lookup_other q k :
  k ∉ (SearchQuery_params q).*1 → SearchQuery.queryValues q !! k = None.
Proof.
  simpl. rewrite !not_elem_of_cons. intros Hk.
  unfold SearchQuery.queryValues. cbv zeta.
  repeat first
    [ rewrite lookup_when_Set_ne by (intros <-; intuition congruence)
    | rewrite lookup_Set_ne by (intros <-; intuition congruence) ].
  done.
Qed.

Lemma reverse_lookup_params q k o :
  (k, o) ∈ ReverseQuery_params q →
  ReverseQuery.queryValues q !! k = (λ x, [x]) <$> o.
Proof.
  unfold ReverseQuery_params, list_param. intros Hin.
  repeat (apply elem_of_cons in Hin as [[= -> ->]|Hin];
          [unfold ReverseQuery.queryValues; read_key|]).
  by apply elem_of_nil in Hin.
Qed.

Lemma reverse_lookup_other q k :
  k ∉ (ReverseQuery_params q).*1 → ReverseQuery.queryValues q !! k = None.
Proof.
  simpl. rewrite !not_elem_of_cons. intros Hk.
  unfold ReverseQuery.queryValues.
  repeat first
    [ rewrite lookup_when_Set_ne by (intros <-; intuition congruence)
    | rewrite lookup_Set_ne by (intros <-; intuition congruence) ].
  done.
Qed.

Lemma search_params_keys q :
  StronglySorted string_le (SearchQuery_params q).*1
  ∧ NoDup (SearchQuery_params q).*1.
Proof. split; by apply (bool_decide_unpack _). Qed.

Lemma reverse_params_keys q :
  StronglySorted string_le (ReverseQuery_params q).*1
  ∧ NoDup (ReverseQuery_params q).*1.
Proof. split; by apply (bool_decide_unpack _). Qed.

Lemma search_Encode_params (q : SearchQuery.t) :
  url.Encode (SearchQuery.queryValues q) = render_params (SearchQuery_params q).
Proof.
  destruct (search_params_keys q) as [Hsorted Hnd].
  apply Encode_params; [done|done| |].
  - apply search_lookup_params.
  - apply search_lookup_other.
Qed.

Lemma reverse_Encode_params (q : ReverseQuery.t) :
  url.Encode (ReverseQuery.queryValues q) = render_params (ReverseQuery_params q).
Proof.
  destruct (reverse_params_keys q) as [Hsorted Hnd].
  apply Encode_params; [done|done| |].
  - apply reverse_lookup_params.
  - apply reverse_lookup_other.
Qed.

(** X1: the query string of a search is its parameters written as
    [key=value], in increasing byte order of their keys, each key at most
    once, joined by ["&"]. *)
Theorem search_wire_closed_form (q : SearchQuery.t) :
  SearchQuery.buildQueryString q = render_params (SearchQuery_params q).
Proof.
  unfold SearchQuery.buildQueryString.
  rewrite (search_Encode_params q).
  reflexivity.
Qed.

(** X2: so is the query string of a reverse query, with its seven
    keys. *)
Theorem reverse_wire_closed_form (q : ReverseQuery.t) :
  ReverseQuery.buildQueryString q = render_params (ReverseQuery_params q).
Proof.
  unfold ReverseQuery.buildQueryString.
  rewrite (reverse_Encode_params q).
  reflexivity.
Qed.

(** ** The builders on the queries of the constructors *)

(** X3: a query made by [NewSearchQuery] sends the defaults, and with a
    free-form text the text after them. *)
Theorem default_search_wire :
  SearchQuery.buildQueryString SearchQuery.NewSearchQuery
  = "accept-language=en&addressdetails=1&extratags=0&format=jsonv2&limit=10&namedetails=0"
  ∧ ∀ text, text ≠ "" →
      SearchQuery.buildQueryString (with_free_form text SearchQuery.NewSearchQuery)
      = "accept-language=en&addressdetails=1&extratags=0&format=jsonv2&limit=10&namedetails=0&q="
        ++ url.QueryEscape text.
Proof.
  split; [by vm_compute|].
  intros text Htext. unfold SearchQuery.buildQueryString.
  rewrite search_Encode_params.
  unfold SearchQuery_params, structured_param. cbv zeta. simpl.
  rewrite (bool_decide_eq_true_2 (text ≠ "")) by done.
  rewrite !(bool_decide_eq_false_2 (text = "" ∧ _)) by (by intros [? _]).
  reflexivity.
Qed.

Lemma default_search_wire_witness :
  SearchQuery.buildQueryString (with_free_form "rua do ouro" SearchQuery.NewSearchQuery)
  = "accept-language=en&addressdetails=1&extratags=0&format=jsonv2&limit=10&namedetails=0&q=rua+do+ouro".
Proof.
  apply (proj2 default_search_wire "rua do ouro"). discriminate.
Defined.

(** X4: a query made by [NewReverseQuery] sends the defaults around the two
    coordinates. *)
Theorem default_reverse_wire (latitude longitude : string) :
  ReverseQuery.buildQueryString (ReverseQuery.NewReverseQuery latitude longitude)
  = "accept-language=en&addressdetails=1&extratags=0&format=jsonv2&lat="
    ++ url.QueryEscape latitude ++ "&lon=" ++ url.QueryEscape longitude
    ++ "&namedetails=0".
Proof.
  unfold ReverseQuery.buildQueryString. rewrite reverse_Encode_params.
  reflexivity.
Qed.

(** ** The other parameters of the builders *)

(** Find a key in the list of the parameters of a builder. *)
Ltac in_params :=
  unfold SearchQuery_params, ReverseQuery_params; cbv zeta;
  repeat first [apply list_elem_of_here | apply list_elem_of_further].


(** X5: without free-form text, no [q] is sent and each structured field
    is sent under its own key when it is not empty, and not otherwise. *)
Theorem structured_fields_sent (q : SearchQuery.t) :
  SearchQuery.FreeFormQuery q = "" →
  let wire := SearchQuery.buildQueryString q in
  let s := SearchQuery.Structured q in
  omits wire keyFreeFormQuery
  ∧ wire_values wire keyStreet = sent_if_set (SearchStructuredQuery.Street s)
  ∧ wire_values wire keyCity = sent_if_set (SearchStructuredQuery.City s)
  ∧ wire_values wire keyCounty = sent_if_set (SearchStructuredQuery.County s)
  ∧ wire_values wire keyState = sent_if_set (SearchStructuredQuery.State s)
  ∧ wire_values wire keyCountry = sent_if_set (SearchStructuredQuery.Country s)
  ∧ wire_values wire keyPostalCode
    = sent_if_set (SearchStructuredQuery.PostalCode s).
Proof.
  intros Hff wire s. subst wire s. unfold omits, SearchQuery.buildQueryString.
  rewrite !wire_values_Encode.
  erewrite (search_lookup_params q keyFreeFormQuery) by in_params.
  erewrite (search_lookup_params q keyStreet) by in_params.
  erewrite (search_lookup_params q keyCity) by in_params.
  erewrite (search_lookup_params q keyCounty) by in_params.
  erewrite (search_lookup_params q keyState) by in_params.
  erewrite (search_lookup_params q keyCountry) by in_params.
  erewrite (search_lookup_params q keyPostalCode) by in_params.
  unfold structured_param, sent_if_set. rewrite Hff.
  rewrite bool_decide_eq_false_2 by (by intros ?).
  repeat split; try done;
    match goal with
    | |- context [bool_decide (?f = "")] =>
        destruct (decide (f = "")) as [Hf|Hf];
        [ rewrite (bool_decide_eq_true_2 (f = "")) by done;
          by rewrite bool_decide_eq_false_2 by (by intros [_ ?])
        | rewrite (bool_decide_eq_false_2 (f = "")) by done;
          by rewrite bool_decide_eq_true_2 by done ]
    end.
Qed.


Lemma list_param_sent l :
  List.map url.QueryEscape (default [] ((λ x, [x]) <$> list_param l))
  = list_sent l.
Proof. by destruct l. Qed.

(** X6: the accepted languages and the excluded places are sent as one
    comma-joined value each, and not at all when the list is empty. *)
Theorem list_modifiers_sent :
  (∀ q : SearchQuery.t,
     let wire := SearchQuery.buildQueryString q in
     wire_values wire keyAcceptLanguage = list_sent (SearchQuery.AcceptLanguage q)
     ∧ wire_values wire keyExcludePlaces
       = list_sent (SearchQuery.ExcludedPlaces q))
  ∧ (∀ q : ReverseQuery.t,
       wire_values (ReverseQuery.buildQueryString q) keyAcceptLanguage
       = list_sent (ReverseQuery.AcceptLanguage q)).
Proof.
  split; [intros q wire; subst wire; split|intros q].
  - unfold SearchQuery.buildQueryString. rewrite wire_values_Encode.
    erewrite (search_lookup_params q keyAcceptLanguage) by in_params.
    apply list_param_sent.
  - unfold SearchQuery.buildQueryString. rewrite wire_values_Encode.
    erewrite (search_lookup_params q keyExcludePlaces) by in_params.
    apply list_param_sent.
  - unfold ReverseQuery.buildQueryString. rewrite wire_values_Encode.
    erewrite (reverse_lookup_params q keyAcceptLanguage) by in_params.
    apply list_param_sent.
Qed.

(** X7: both builders always ask for the format [jsonv2]. *)
Theorem format_always_sent :
  (∀ q : SearchQuery.t,
     wire_values (SearchQuery.buildQueryString q) keyFormat = ["jsonv2"])
  ∧ (∀ q : ReverseQuery.t,
     wire_values (ReverseQuery.buildQueryString q) keyFormat = ["jsonv2"]).
Proof.
  split; intros q.
  - unfold SearchQuery.buildQueryString. rewrite wire_values_Encode.
    by erewrite (search_lookup_params q keyFormat) by in_params.
  - unfold ReverseQuery.buildQueryString. rewrite wire_values_Encode.
    by erewrite (reverse_lookup_params q keyFormat) by in_params.
Qed.

(** X8: a search sends no parameter outside its fourteen keys (so never a
    latitude or longitude), and a reverse query none outside its seven (so
    never a limit, a free-form text or excluded places). *)
Theorem no_other_parameter :
  (∀ (q : SearchQuery.t) k,
     k ∉ [keyFormat; keyFreeFormQuery; keyStreet; keyCity; keyCounty; keyState;
          keyCountry; keyPostalCode; keyAddressDetails; keyExtraTags;
          keyNameDetails; keyAcceptLanguage; keyExcludePlaces; keyLimit] →
     omits (SearchQuery.buildQueryString q) k)
  ∧ (∀ (q : ReverseQuery.t) k,
     k ∉ [keyFormat; keyLatitude; keyLongitude; keyAddressDetails;
          keyExtraTags; keyNameDetails; keyAcceptLanguage] →
     omits (ReverseQuery.buildQueryString q) k).
Proof.
  split; intros q k Hk.
  - apply omits_Encode, search_lookup_other. simpl.
    rewrite !not_elem_of_cons in *. intuition congruence.
  - apply omits_Encode, reverse_lookup_other. simpl.
    rewrite !not_elem_of_cons in *. intuition congruence.
Qed.

Lemma no_other_parameter_witness :
  omits (SearchQuery.buildQueryString some_search_query) keyLatitude
  ∧ omits (ReverseQuery.buildQueryString some_reverse_query) keyLimit.
Proof.
  split.
  - apply (proj1 no_other_parameter some_search_query keyLatitude).
    by apply (bool_decide_unpack _).
  - apply (proj2 no_other_parameter some_reverse_query keyLimit).
    by apply (bool_decide_unpack _).
Defined.

Lemma structured_fields_sent_witness :
  let q := with_free_form "" some_search_query in
  SearchQuery.FreeFormQuery q = ""
  ∧ wire_values (SearchQuery.buildQueryString q) keyStreet
    = ["135+pilkington+avenue"]
  ∧ wire_values (SearchQuery.buildQueryString q) keyCounty = [].
Proof.
  intros q. split; [reflexivity|].
  pose proof (structured_fields_sent q eq_refl) as H. split; apply H.
Defined.

(** ** What a call can return *)

Section Outcomes.

Context {T : Type}.
Variable zero : T.
Variable ctx : Context.

Implicit Types (s : state T) (w : list (send T)) (sched : list event).

(** A value that the caller returns with a nil error is one that the
    goroutine sends. *)
Lemma returned_value_origin w sched s v :
  run zero ctx sched (start w) = Some s → returned s = Some (v, None) →
  In (SendValue v) w.
Proof.
  intros Hrun.
  pose (P := λ s : state T,
    (∀ op, In op (worker s) → In op w)
    ∧ (∀ v, valueChan s = Some v → In (SendValue v) w)
    ∧ (∀ v, returned s = Some (v, None) → In (SendValue v) w)).
  enough (P s) as (_ & _ & H) by (intros; by apply H).
  eapply (run_invariant _ _ P); [|exact Hrun|].
  - clear. intros e s s' He%step_Step (Hw & Hc & Hr).
    destruct He as [s v rest Hs Hv|s err rest Hs Hc'|s err Hctx Hd
                    |s v Hr' Hv|s err Hr' Hc'|s err Hr' Hd Hctx];
      (split; [|split]); simpl; try done.
    + intros op Hop. apply Hw. rewrite Hs. by right.
    + intros v' [= <-]. apply Hw. rewrite Hs. by left.
    + intros op Hop. apply Hw. rewrite Hs. by right.
    + intros v' [= <-]. by apply Hc.
  - split; [done|]. split; done.
Qed.






(** When the goroutine sends two errors in a row, the second waits for the
    caller to take the first: the caller returns the first error, or the
    error of the context. *)
Lemma first_error_returned e1 e2 rest sched s out :
  run zero ctx sched (start (SendErr e1 :: SendErr e2 :: rest)) = Some s →
  returned s = Some out →
  out = (zero, Some e1)
  ∨ ∃ c, ctx = WithCancel c ∧ out = (zero, Some (context_error c)).
Proof.
  intros Hrun.
  pose (w := SendErr e1 :: SendErr e2 :: rest).
  pose (P := λ s : state T,
    match returned s with
    | None => valueChan s = None
              ∧ (worker s = w ∧ errChan s = None
                 ∨ worker s = SendErr e2 :: rest ∧ errChan s = Some e1)
    | Some out => out = (zero, Some e1)
                  ∨ ∃ c, ctx = WithCancel c ∧ out = (zero, Some (context_error c))
    end).
  enough (P s) as H by (intros Hret; unfold P in H; by rewrite Hret in H).
  eapply (run_invariant _ _ P); [|exact Hrun|].
  - clear. intros e s s' He%step_Step HP. unfold P in *.
    destruct He as [s v rest' Hs Hv|s err rest' Hs Hc|s err Hctx Hd
                    |s v Hr Hv|s err Hr Hc|s err Hr Hd Hctx]; simpl;
      try done.
    + destruct (returned s); [done|].
      destruct HP as [_ [[Hw _]|[Hw _]]]; rewrite Hw in Hs; done.
    + destruct (returned s); [done|].
      destruct HP as [Hv [[Hw _]|[Hw Hc']]]; [|congruence].
      rewrite Hw in Hs. injection Hs as <- <-. split; [done|]. by right.
    + rewrite Hr in HP. destruct HP as [Hv' _]. congruence.
    + rewrite Hr in HP. destruct HP as [_ [[_ Hc']|[_ Hc']]]; [congruence|].
      left. congruence.
    + right. by exists err.
  - unfold P. simpl. split; [done|]. by left.
Qed.

End Outcomes.

(** ** What the three operations can return *)

(** What the caller returns is a value the goroutine sends, with a nil
    error, or an error it sends, with the zero value, or the error of the
    context. *)
Lemma outcome_origin {T} (zero : T) ctx w sched s out :
  run zero ctx sched (start w) = Some s → returned s = Some out →
  (∃ v, In (SendValue v) w ∧ out = (v, None))
  ∨ (∃ err, In (SendErr err) w ∧ out = (zero, Some err))
  ∨ ctx_outcome zero ctx out.
Proof.
  intros Hrun Hret. destruct out as [v [err|]].
  - right.
    destruct (returned_error_origin _ _ _ _ _ _ Hrun Hret err eq_refl)
      as [Hv [Hin|(c & Hctx & ->)]]; simpl in Hv; subst v.
    + left. by exists err.
    + right. by exists c.
  - left. exists v. split; [|done]. by eapply returned_value_origin.
Qed.

Lemma ctx_outcome_can_return {T} (zero : T) ctx w out :
  ctx_outcome zero ctx out → can_return (λ sched, run zero ctx sched (start w)) out.
Proof. intros (c & -> & ->). exists [CtxDone; TakeDone]. by eexists. Qed.

Ltac by_schedule l := exists l; eexists; split; reflexivity.

Ltac from_worker H :=
  destruct H as [(v & Hin & ->)|[(err' & Hin & ->)|Hctx]]; [..|by right];
  left; simpl in Hin; intuition (try discriminate; try congruence).

Ltac outcomes_of_worker :=
  let sched := fresh "sched" in let s := fresh "s" in
  let Hrun := fresh "Hrun" in let Hret := fresh "Hret" in
  let H := fresh "H" in
  intros (sched & s & Hrun & Hret);
  pose proof (outcome_origin _ _ _ _ _ _ Hrun Hret) as H; from_worker H.

(** X9: [Search] returns the transport error with nil results if [Get]
    fails; the decoded results with a nil error if the body decodes; after
    a decode error either that error with nil results or the results as
    [Decode] left them with a nil error; under a context that can become
    done, also nil results with the error of the context; and nothing
    else. *)
Theorem Search_outcomes js d ctx query out :
  can_return (λ sched, defaultClient.Search_run ctx sched js d query) out
  ↔ Search_outcome js d query out ∨ ctx_outcome None ctx out.
Proof.
  split; [|intros [H|H]; [|by apply ctx_outcome_can_return]]; revert H || idtac;
    unfold can_return, Search_outcome, defaultClient.Search_run,
      defaultClient.Search, defaultClient.Search_worker;
    destruct (http.Get _ _) as [err|body];
    try destruct (json.DecodeResults js body _) as [results [err|]]; simpl.
  - outcomes_of_worker.
  - outcomes_of_worker.
  - outcomes_of_worker.
  - intros ->. by_schedule [WorkerSends; TakeErr].
  - intros [-> | ->].
    + by_schedule [WorkerSends; TakeErr].
    + by_schedule [WorkerSends; WorkerSends; TakeValue].
  - intros ->. by_schedule [WorkerSends; TakeValue].
Qed.

(** X10: the same for [CheckStatus]. *)
Theorem CheckStatus_outcomes js d ctx out :
  can_return (λ sched, defaultClient.CheckStatus_run ctx sched js d) out
  ↔ CheckStatus_outcome js d out ∨ ctx_outcome Status.zero ctx out.
Proof.
  split; [|intros [H|H]; [|by apply ctx_outcome_can_return]]; revert H || idtac;
    unfold can_return, CheckStatus_outcome, defaultClient.CheckStatus_run,
      defaultClient.CheckStatus, defaultClient.CheckStatus_worker;
    destruct (http.Get _ _) as [err|body];
    try destruct (json.DecodeStatus js body _) as [status [err|]]; simpl.
  - outcomes_of_worker.
  - outcomes_of_worker.
  - outcomes_of_worker.
  - intros ->. by_schedule [WorkerSends; TakeErr].
  - intros [-> | ->].
    + by_schedule [WorkerSends; TakeErr].
    + by_schedule [WorkerSends; WorkerSends; TakeValue].
  - intros ->. by_schedule [WorkerSends; TakeValue].
Qed.

(** X11: [Reverse] returns the transport error if [Get] fails; the result
    if the body decodes and its error code is not positive; the service
    error or the result if the code is positive; after a decode error,
    that error or the result when the code is not positive, and only that
    error when it is positive, since the goroutine then waits to send the
    service error; under a context that can become done, also the error
    of the context; and nothing else. *)
Theorem Reverse_outcomes js d ctx query out :
  can_return (λ sched, defaultClient.Reverse_run ctx sched js d query) out
  ↔ Reverse_outcome js d query out ∨ ctx_outcome Result.zero ctx out.
Proof.
  split; [|intros [H|H]; [|by apply ctx_outcome_can_return]]; revert H || idtac;
    unfold can_return, Reverse_outcome, defaultClient.Reverse_run,
      defaultClient.Reverse, defaultClient.Reverse_worker;
    destruct (http.Get _ _) as [err|body];
    try (destruct (json.DecodeReverse js body _) as [result [err|]];
         destruct (0 <? Error.Code (json.Error_ result))); simpl.
  - outcomes_of_worker.
  - intros (sched & s & Hrun & Hret).
    destruct (first_error_returned _ _ _ _ _ _ _ _ Hrun Hret) as [->|Hctx];
      [by left|by right].
  - outcomes_of_worker.
  - outcomes_of_worker.
  - outcomes_of_worker.
  - intros ->. by_schedule [WorkerSends; TakeErr].
  - intros ->. by_schedule [WorkerSends; TakeErr].
  - intros [-> | ->].
    + by_schedule [WorkerSends; TakeErr].
    + by_schedule [WorkerSends; WorkerSends; TakeValue].
  - intros [-> | ->].
    + by_schedule [WorkerSends; TakeErr].
    + by_schedule [WorkerSends; WorkerSends; TakeValue].
  - intros ->. by_schedule [WorkerSends; TakeValue].
Qed.

(** ** The caller and the goroutine get to their ends *)










(** ** The text of a service error *)

Lemma string_of_uint_no_colon d :
  has_byte ":" (NilEmpty.string_of_uint d) = false.
Proof. induction d; simpl; done. Qed.

Lemma Itoa_no_colon z : has_byte ":" (Itoa z) = false.
Proof.
  unfold Itoa, NilZero.string_of_int, NilZero.string_of_uint.
  destruct (Z.to_int z) as [d|d]; destruct d; simpl;
    try done; apply string_of_uint_no_colon.
Qed.

Lemma Itoa_inj z1 z2 : Itoa z1 = Itoa z2 → z1 = z2.
Proof.
  unfold Itoa. intros H.
  assert (∀ z, NilZero.int_of_string (NilZero.string_of_int (Z.to_int z))
               = Some (Z.to_int z)) as Hback.
  { intros z. apply NilZero.isi; destruct z; simpl; try done;
      intros [= Hnil]; by apply DecimalPos.Unsigned.to_uint_nonnil in Hnil. }
  apply (f_equal NilZero.int_of_string) in H. rewrite !Hback in H.
  injection H as H. apply (f_equal Z.of_int) in H. by rewrite !DecimalZ.of_to in H.
Qed.

Lemma cut_at_colon a1 a2 r1 r2 :
  has_byte ":" a1 = false → has_byte ":" a2 = false →
  a1 ++ String ":" r1 = a2 ++ String ":" r2 → a1 = a2 ∧ r1 = r2.
Proof.
  revert a2. induction a1 as [|c1 a1 IH]; intros [|c2 a2]; simpl.
  - by intros _ _ [= ->].
  - intros _ [Hc _]%orb_false_iff [= <- _]. done.
  - intros [Hc _]%orb_false_iff _ [= -> _]. done.
  - intros [_ H1]%orb_false_iff [_ H2]%orb_false_iff [= -> Heq].
    destruct (IH a2 H1 H2 Heq) as [-> ->]. done.
Qed.

(** X15: the text of a service error is its code in decimal, a colon and a
    space, and its message; the text tells the error: two errors with the
    same text have the same code and the same message. *)
Theorem Error_text_inj e1 e2 : Error.Error e1 = Error.Error e2 → e1 = e2.
Proof.
  destruct e1 as [c1 m1], e2 as [c2 m2]. unfold Error.Error. simpl.
  change (": " ++ m1) with (String ":" (String " " m1)).
  change (": " ++ m2) with (String ":" (String " " m2)).
  intros [Hc [= ->]]%cut_at_colon; [|apply Itoa_no_colon..].
  by apply Itoa_inj in Hc as ->.
Qed.

(** The text ["704: Unable to geocode"], read back. *)
Lemma Error_text_inj_witness :
  Error.Error (Error.mk StatusNoValue "Unable to geocode")
  = "704: Unable to geocode"
  ∧ Error.mk StatusNoValue "Unable to geocode"
    = Error.mk 704 ("Unable" ++ " to geocode").
Proof.
  split; [reflexivity|].
  apply (Error_text_inj (Error.mk StatusNoValue "Unable to geocode")
                        (Error.mk 704 ("Unable" ++ " to geocode"))).
  reflexivity.
Defined.

(** ** The bytes of a query string *)

Lemma all_bytes_app ok s1 s2 :
  all_bytes ok (s1 ++ s2) = all_bytes ok s1 && all_bytes ok s2.
Proof.
  induction s1 as [|c s1 IH]; simpl; [done|]. by rewrite IH, andb_assoc.
Qed.

Lemma escape_byte_wire c : all_bytes wire_byte (url.escape_byte c) = true.
Proof. destruct c as [[] [] [] [] [] [] [] []]; vm_compute; done. Qed.

Lemma QueryEscape_wire s : all_bytes wire_byte (url.QueryEscape s) = true.
Proof.
  induction s as [|c s IH]; simpl; [done|].
  by rewrite all_bytes_app, escape_byte_wire, IH.
Qed.

Lemma concat_wire (cs : list string) :
  Forall (λ c, all_bytes wire_byte c = true) cs →
  all_bytes wire_byte (String.concat "&" cs) = true.
Proof.
  induction cs as [|c cs IH]; [done|].
  intros [Hc Hcs]%Forall_cons. destruct cs as [|c' cs]; [done|].
  change (String.concat "&" (c :: c' :: cs))
    with (c ++ String "&" (String.concat "&" (c' :: cs))).
  rewrite all_bytes_app, Hc. simpl. by apply IH.
Qed.

Lemma Encode_wire (v : url.Values) : all_bytes wire_byte (url.Encode v) = true.
Proof.
  apply concat_wire, List.Forall_forall. intros c Hc.
  unfold url.components in Hc. apply in_flat_map in Hc as (e & _ & Hc).
  apply in_map_iff in Hc as (x & <- & _).
  change ("=" ++ url.QueryEscape x) with (String "=" (url.QueryEscape x)).
  rewrite all_bytes_app. simpl. by rewrite !QueryEscape_wire.
Qed.

(** X16: whatever strings the caller puts in a query, its query string is
    made of unreserved bytes, ["+"], ["%"], ["&"] and ["="] only: no
    space, ["#"], ["?"], ["/"] or byte above 127 gets through unescaped. *)
Theorem wire_bytes_escaped :
  (∀ q : SearchQuery.t,
     all_bytes wire_byte (SearchQuery.buildQueryString q) = true)
  ∧ (∀ q : ReverseQuery.t,
     all_bytes wire_byte (ReverseQuery.buildQueryString q) = true)
  ∧ wire_byte " " = false ∧ wire_byte "#" = false ∧ wire_byte "?" = false
  ∧ wire_byte "/" = false ∧ wire_byte "128" = false.
Proof.
  split; [|split]; [intros q; apply Encode_wire..|by vm_compute].
Qed.
